(** * The incremental TypeScript compiler plugin of wrenchjs

    A shallow embedding of [lib/broccoli/broccoli-typescript.js]: the
    [DiffingTSCompiler] object with its file registry, its root file list and
    its two run flags, and the methods [rebuild], [logError], [doFullBuild] and
    [removeOutputFor], together with [getScriptVersion] and
    [getScriptFileNames] of [CustomLanguageServiceHost].

    Modelling choices.
    - A JavaScript method is a computation in the monad [Js]: it transforms a
      [Machine] (the compiler object, the files of the cache directory, the
      trace of observable calls) and completes normally or throws.  A thrown
      exception keeps every mutation made before it, as in JavaScript.
    - [fileRegistry] is an object without prototype used as a dictionary from
      paths to [{version: n}] or [null]: a [gmap string RegEntry].
    - [rootFilePaths] is an array: a [list string]; [indexOf] and [splice]
      follow ECMAScript, negative start index included.
    - The TypeScript language service is outside the repository.  What it
      answers during one cycle is a [TsService] record handed to [rebuild];
      every theorem holds for all such records.
    - [path.join] and [path.dirname] of Node are a [NodePath] record, a
      variable of the section.
    - The file system holds regular files only.  [fs.writeFileSync] and
      [fse.mkdirsSync] always succeed; [fs.unlinkSync] throws on a missing
      file.
    - Version counters are natural numbers (the source's doubles count
      exactly up to 2^53).  Strings are sequences of 8-bit characters. *)

From Stdlib Require Import String Ascii ZArith List Lia.
From stdpp Require Import base option list gmap strings pretty.

Local Open Scope string_scope.
Local Open Scope Z_scope.
Local Open Scope nat_scope.
Local Open Scope list_scope.

(** ** Data *)

(** A value stored under a path in [fileRegistry]: the object
    [{version: n}] or [null].  A path that was never stored reads
    [undefined], here [None]. *)
Inductive RegEntry : Type :=
| FileRecord (version : nat)
| Null.

Global Instance RegEntry_eq_dec : EqDecision RegEntry.
Proof. solve_decision. Defined.

(** JavaScript truthiness of [fileRegistry[p]]. *)
Definition truthy (v : option RegEntry) : bool :=
  match v with
  | Some (FileRecord _) => true
  | Some Null | None => false
  end.

Record DiffingTSCompiler : Type := mkCompiler {
  inputPath : string;
  cachePath : string;
  fileRegistry : gmap string RegEntry;
  firstRun : bool;
  previousRunFailed : bool;
  rootFilePaths : list string;
}.

Record TreeDiff : Type := mkDiff {
  changedPaths : list string;
  removedPaths : list string;
}.

Record OutputFile : Type := mkOutputFile {
  name : string;
  text : string;
}.

Record EmitOutput : Type := mkEmitOutput {
  eo_emitSkipped : bool;
  outputFiles : list OutputFile;
}.

(** A diagnostic as the plugin reads it: [file] is absent for global
    diagnostics; [line] and [character] are the zero-based answers of
    [file.getLineAndCharacterOfPosition(start)]; [messageText] is the text
    [ts.flattenDiagnosticMessageText] returns. *)
Record Diagnostic : Type := mkDiagnostic {
  file : option string;
  line : nat;
  character : nat;
  messageText : string;
}.

(** The result of [program.emit]: [written] lists the calls of the
    [writeFile] callback, in order. *)
Record EmitResult : Type := mkEmitResult {
  er_emitSkipped : bool;
  diagnostics : list Diagnostic;
  written : list OutputFile;
}.

(** The language service during one cycle.  The program-level queries read
    the host's [getScriptFileNames()], so they take the root list. *)
Record TsService : Type := mkService {
  getEmitOutput : string -> EmitOutput;
  getCompilerOptionsDiagnostics : list Diagnostic;
  getSyntacticDiagnostics : string -> list Diagnostic;
  getSemanticDiagnostics : string -> list Diagnostic;
  program_emit : list string -> EmitResult;
  getPreEmitDiagnostics : list string -> list Diagnostic;
}.

Record NodePath : Type := mkNodePath {
  join : string -> string -> string;
  dirname : string -> string;
}.

Inductive JsError : Type :=
| Error (message : string)
| TypeError
| ENOENT (path : string).

Inductive Event : Type :=
| ConsoleLog (text : string)
| GetEmitOutput (tsFilePath : string)
| ProgramEmit (fileNames : list string)
| Mkdirs (dir : string)
| WriteFile (name text : string)
| Unlink (name : string).

Global Instance Event_eq_dec : EqDecision Event.
Proof. solve_decision. Defined.

Record Machine : Type := mkMachine {
  this : DiffingTSCompiler;
  disk : gmap string string;
  trace : list Event;
}.

(** ** The monad of JavaScript computations *)

Inductive Completion (A : Type) : Type :=
| Normal (a : A)
| Throw (e : JsError).
Arguments Normal {A} a.
Arguments Throw {A} e.

Definition Js (A : Type) : Type := Machine -> Machine * Completion A.

Global Instance Js_ret : MRet Js := fun A a m => (m, Normal a).

Global Instance Js_bind : MBind Js := fun A B f c m =>
  match c m with
  | (m', Normal a) => f a m'
  | (m', Throw e) => (m', Throw e)
  end.

Definition throw {A : Type} (e : JsError) : Js A := fun m => (m, Throw e).

Definition get_this : Js DiffingTSCompiler := fun m => (m, Normal (this m)).

Definition modify_this (f : DiffingTSCompiler -> DiffingTSCompiler) : Js unit :=
  fun m => (mkMachine (f (this m)) (disk m) (trace m), Normal tt).

Definition observe (e : Event) : Js unit :=
  fun m => (mkMachine (this m) (disk m) (trace m ++ [e]), Normal tt).

Fixpoint forEach {A : Type} (f : A -> Js unit) (l : list A) : Js unit :=
  match l with
  | [] => mret tt
  | x :: r => f x ;; forEach f r
  end.

(** [forEach] with a callback that pushes onto a local array [acc]. *)
Fixpoint forEach_push {A B : Type} (f : list B -> A -> Js (list B))
    (acc : list B) (l : list A) : Js (list B) :=
  match l with
  | [] => mret acc
  | x :: r => acc' ← f acc x; forEach_push f acc' r
  end.

(** ** Node's [console] and [fs] *)

Definition console_log (s : string) : Js unit := observe (ConsoleLog s).

Definition existsSync (p : string) : Js bool :=
  fun m => (m, Normal (bool_decide (is_Some (disk m !! p)))).

Definition unlinkSync (p : string) : Js unit := fun m =>
  match disk m !! p with
  | Some _ => (mkMachine (this m) (delete p (disk m)) (trace m ++ [Unlink p]), Normal tt)
  | None => (m, Throw (ENOENT p))
  end.

Definition mkdirsSync (d : string) : Js unit := observe (Mkdirs d).

Definition writeFileSync (p content : string) : Js unit := fun m =>
  (mkMachine (this m) (<[p := content]> (disk m)) (trace m ++ [WriteFile p content]),
   Normal tt).

(** ** Strings and arrays of ECMAScript *)

Definition newline : string := String (ascii_of_nat 10) EmptyString.

(** [Array.prototype.join]. *)
Fixpoint array_join (sep : string) (l : list string) : string :=
  match l with
  | [] => ""
  | [s] => s
  | s :: r => s +:+ sep +:+ array_join sep r
  end.

(** The characters the regular-expression atom [.] does not match. *)
Definition lineTerminator (c : ascii) : bool :=
  bool_decide (c = ascii_of_nat 10) || bool_decide (c = ascii_of_nat 13).

(** [s.replace(/\.ts$/, repl)]. *)
Definition replace_dot_ts (s repl : string) : string :=
  match rev (list_ascii_of_string s) with
  | "s"%char :: "t"%char :: "."%char :: r =>
      string_of_list_ascii (rev r) +:+ repl
  | _ => s
  end.

(** [s.replace(/.ts$/, repl)]: the dot is not escaped in the source. *)
Definition replace_any_ts (s repl : string) : string :=
  match rev (list_ascii_of_string s) with
  | "s"%char :: "t"%char :: c :: r =>
      if lineTerminator c then s else string_of_list_ascii (rev r) +:+ repl
  | _ => s
  end.

(** [Array.prototype.indexOf]: the first index holding [x], or -1. *)
Fixpoint indexOf (l : list string) (x : string) : Z :=
  match l with
  | [] => (-1)%Z
  | y :: r =>
      if decide (y = x) then 0%Z
      else let i := indexOf r x in if (i <? 0)%Z then (-1)%Z else (i + 1)%Z
  end.

(** [l.splice(start, 1)], seen as its effect on [l]: a negative [start]
    counts from the end, and at most one element is removed. *)
Definition splice1 (l : list string) (start : Z) : list string :=
  let len := Z.of_nat (length l) in
  let actualStart :=
    if (start <? 0)%Z then Z.max (len + start) 0 else Z.min start len in
  delete (Z.to_nat actualStart) l.

(** ** The registry and the root file list *)

(** First callback of [rebuild] (source lines 38-44), as its effect on the
    compiler object: a path whose registry entry is falsy gets a fresh
    record and is pushed onto the root list, any other gets its version
    incremented. *)
Definition markChanged (tsFilePath : string) (c : DiffingTSCompiler)
    : DiffingTSCompiler :=
  match fileRegistry c !! tsFilePath with
  | Some (FileRecord v) =>
      mkCompiler (inputPath c) (cachePath c)
        (<[tsFilePath := FileRecord (S v)]> (fileRegistry c))
        (firstRun c) (previousRunFailed c) (rootFilePaths c)
  | Some Null | None =>
      mkCompiler (inputPath c) (cachePath c)
        (<[tsFilePath := FileRecord 0]> (fileRegistry c))
        (firstRun c) (previousRunFailed c) (rootFilePaths c ++ [tsFilePath])
  end.

(** Second callback of [rebuild] (source lines 50-51), as its effect on the
    compiler object. *)
Definition markRemoved (tsFilePath : string) (c : DiffingTSCompiler)
    : DiffingTSCompiler :=
  mkCompiler (inputPath c) (cachePath c)
    (<[tsFilePath := Null]> (fileRegistry c))
    (firstRun c) (previousRunFailed c)
    (splice1 (rootFilePaths c) (indexOf (rootFilePaths c) tsFilePath)).

Definition set_firstRun (b : bool) (c : DiffingTSCompiler) : DiffingTSCompiler :=
  mkCompiler (inputPath c) (cachePath c) (fileRegistry c) b
    (previousRunFailed c) (rootFilePaths c).

Definition set_previousRunFailed (b : bool) (c : DiffingTSCompiler)
    : DiffingTSCompiler :=
  mkCompiler (inputPath c) (cachePath c) (fileRegistry c) (firstRun c) b
    (rootFilePaths c).

(** The constructor; [options_rootFilePaths] is [options.rootFilePaths],
    [None] when the option is not given. *)
Definition new_DiffingTSCompiler (inputPath cachePath : string)
    (options_rootFilePaths : option (list string)) : DiffingTSCompiler :=
  mkCompiler inputPath cachePath ∅ true false
    (match options_rootFilePaths with Some l => l | None => [] end).

(** ** [CustomLanguageServiceHost] *)

Inductive JsValue : Type :=
| Undefined
| JsNull
| JsString (s : string).

Definition getScriptFileNames (c : DiffingTSCompiler) : list string :=
  rootFilePaths c.

Definition getScriptVersion (c : DiffingTSCompiler) (fileName : string)
    : JsValue :=
  match fileRegistry c !! fileName with
  | None => Undefined
  | Some Null => JsNull
  | Some (FileRecord v) => JsString (pretty v)
  end.

(** ** The methods of [DiffingTSCompiler] *)

Definition errorsFound : JsError :=
  Error "Typescript found errors listed above...".

(** The line [logError] prints for one diagnostic. *)
Definition errorLine (d : Diagnostic) : string :=
  match file d with
  | Some fileName =>
      "  Error " +:+ fileName +:+ " (" +:+ pretty (line d + 1) +:+ ","
        +:+ pretty (character d + 1) +:+ "): " +:+ messageText d
  | None => "  Error: " +:+ messageText d
  end.

Definition allDiagnosticsOf (svc : TsService) (tsFilePath : string)
    : list Diagnostic :=
  getCompilerOptionsDiagnostics svc
    ++ getSyntacticDiagnostics svc tsFilePath
    ++ getSemanticDiagnostics svc tsFilePath.

Definition logError (svc : TsService) (tsFilePath : string) : Js bool :=
  let allDiagnostics := allDiagnosticsOf svc tsFilePath in
  forEach (fun d => console_log (errorLine d)) allDiagnostics ;;
  mret (negb (length allDiagnostics =? 0)).

(** The callback of [doFullBuild]'s loop over the diagnostics: it reads
    [diagnostic.file.getLineAndCharacterOfPosition], which throws a
    [TypeError] when [diagnostic.file] is undefined. *)
Definition fullBuildMessage (errorMessages : list string) (d : Diagnostic)
    : Js (list string) :=
  match file d with
  | None => throw TypeError
  | Some fileName =>
      mret (errorMessages ++
        ["  " +:+ fileName +:+ " (" +:+ pretty (line d + 1) +:+ ","
           +:+ pretty (character d + 1) +:+ "): " +:+ messageText d])
  end.

Section Plugin.

Variable path : NodePath.

Definition writeOutput (o : OutputFile) : Js unit :=
  mkdirsSync (dirname path (name o)) ;;
  writeFileSync (name o) (text o).

Definition doFullBuild (svc : TsService) : Js unit :=
  c ← get_this;
  let fileNames := getScriptFileNames c in
  let emitResult := program_emit svc fileNames in
  observe (ProgramEmit fileNames) ;;
  forEach writeOutput (written emitResult) ;;
  if er_emitSkipped emitResult then
    let allDiagnostics :=
      getPreEmitDiagnostics svc fileNames ++ diagnostics emitResult in
    errorMessages ← forEach_push fullBuildMessage [] allDiagnostics;
    if negb (length errorMessages =? 0) then
      modify_this (set_previousRunFailed true) ;;
      console_log (array_join newline errorMessages) ;;
      throw errorsFound
    else
      modify_this (set_previousRunFailed false)
  else mret tt.

Definition jsPathOf (c : DiffingTSCompiler) (tsFilePath : string) : string :=
  join path (cachePath c) (replace_dot_ts tsFilePath ".js").
Definition mapPathOf (c : DiffingTSCompiler) (tsFilePath : string) : string :=
  join path (cachePath c) (replace_any_ts tsFilePath ".js.map").
Definition dtsPathOf (c : DiffingTSCompiler) (tsFilePath : string) : string :=
  join path (cachePath c) (replace_dot_ts tsFilePath ".d.ts").

Definition removeOutputFor (tsFilePath : string) : Js unit :=
  c ← get_this;
  let absoluteJsFilePath := jsPathOf c tsFilePath in
  let absoluteMapFilePath := mapPathOf c tsFilePath in
  let absoluteDtsFilePath := dtsPathOf c tsFilePath in
  exists_ ← existsSync absoluteJsFilePath;
  if exists_ : bool then
    unlinkSync absoluteJsFilePath ;;
    unlinkSync absoluteMapFilePath ;;
    unlinkSync absoluteDtsFilePath
  else mret tt.

(** The three callbacks of [rebuild]. *)
Definition rebuild_changed (pathsToEmit : list string) (tsFilePath : string)
    : Js (list string) :=
  modify_this (markChanged tsFilePath) ;;
  mret (pathsToEmit ++ [tsFilePath]).

Definition rebuild_removed (tsFilePath : string) : Js unit :=
  console_log ("removing outputs for " +:+ tsFilePath) ;;
  modify_this (markRemoved tsFilePath) ;;
  removeOutputFor tsFilePath.

Definition rebuild_emit (svc : TsService) (pathsWithErrors : list string)
    (tsFilePath : string) : Js (list string) :=
  observe (GetEmitOutput tsFilePath) ;;
  let output := getEmitOutput svc tsFilePath in
  if eo_emitSkipped output then
    errorFound ← logError svc tsFilePath;
    if errorFound : bool then mret (pathsWithErrors ++ [tsFilePath])
    else mret pathsWithErrors
  else
    forEach writeOutput (outputFiles output) ;;
    mret pathsWithErrors.

(** The part of [rebuild] after the diff has been applied (source lines
    54-82). *)
Definition rebuild_build (svc : TsService) (pathsToEmit : list string)
    : Js unit :=
  c ← get_this;
  if firstRun c then
    modify_this (set_firstRun false) ;;
    doFullBuild svc
  else
    pathsWithErrors ← forEach_push (rebuild_emit svc) [] pathsToEmit;
    if negb (length pathsWithErrors =? 0) then
      modify_this (set_previousRunFailed true) ;;
      throw errorsFound
    else
      c' ← get_this;
      if previousRunFailed c' then doFullBuild svc else mret tt.

Definition rebuild (svc : TsService) (treeDiff : TreeDiff) : Js unit :=
  pathsToEmit ← forEach_push rebuild_changed [] (changedPaths treeDiff);
  forEach rebuild_removed (removedPaths treeDiff) ;;
  rebuild_build svc pathsToEmit.

(** A run of the plugin: the host calls [rebuild] once per cycle and
    catches what it throws. *)
Fixpoint run (cycles : list (TsService * TreeDiff)) (m : Machine) : Machine :=
  match cycles with
  | [] => m
  | (svc, treeDiff) :: r => run r (fst (rebuild svc treeDiff m))
  end.

End Plugin.

(** ** Node's [path] module on POSIX

    The instance of [NodePath] the examples run with: [path.join] and
    [path.dirname] as Node defines them for [/]-separated paths. *)
Module Posix.

Definition slash : ascii := "/"%char.

(** The segments between the slashes of [s]. *)
Fixpoint segments (cur : list ascii) (s : list ascii) : list (list ascii) :=
  match s with
  | [] => [rev cur]
  | c :: r =>
      if decide (c = slash) then rev cur :: segments [] r
      else segments (c :: cur) r
  end.

(** One step of [normalizeString]; [stack] holds the kept segments, last
    one first. *)
Definition pushSegment (allowAboveRoot : bool) (stack : list (list ascii))
    (seg : list ascii) : list (list ascii) :=
  if decide (seg = []) then stack
  else if decide (seg = ["."%char]) then stack
  else if decide (seg = ["."%char; "."%char]) then
    match stack with
    | top :: below =>
        if decide (top = ["."%char; "."%char]) then
          (if allowAboveRoot then seg :: stack else stack)
        else below
    | [] => if allowAboveRoot then [seg] else []
    end
  else seg :: stack.

Fixpoint joinSegments (l : list (list ascii)) : list ascii :=
  match l with
  | [] => []
  | [s] => s
  | s :: r => s ++ slash :: joinSegments r
  end.

Definition normalize (p : string) : string :=
  match list_ascii_of_string p with
  | [] => "."
  | (c :: _) as cs =>
      let isAbsolute := bool_decide (c = slash) in
      let trailingSeparator := bool_decide (last cs = Some slash) in
      let body :=
        joinSegments
          (rev (fold_left (pushSegment (negb isAbsolute)) (segments [] cs) [])) in
      match body with
      | [] =>
          if isAbsolute then "/"
          else if trailingSeparator then "./" else "."
      | _ =>
          let body' := if trailingSeparator then body ++ [slash] else body in
          string_of_list_ascii (if isAbsolute then slash :: body' else body')
      end
  end.

Definition join (a b : string) : string :=
  if decide (a = "") then (if decide (b = "") then "." else normalize b)
  else if decide (b = "") then normalize a
  else normalize (a +:+ "/" +:+ b).

Fixpoint dropWhile {A : Type} (f : A -> bool) (l : list A) : list A :=
  match l with
  | [] => []
  | x :: r => if f x then dropWhile f r else l
  end.

Definition dirname (p : string) : string :=
  match list_ascii_of_string p with
  | [] => "."
  | c :: r =>
      let hasRoot := bool_decide (c = slash) in
      let isSlash := fun x : ascii => bool_decide (x = slash) in
      match dropWhile (fun x => negb (isSlash x)) (dropWhile isSlash (rev r)) with
      | [] => if hasRoot then "/" else "."
      | _ :: before =>
          if hasRoot && bool_decide (before = []) then "//"
          else string_of_list_ascii (c :: rev before)
      end
  end.

Definition path : NodePath := mkNodePath join dirname.

End Posix.

(** ** Derived definitions used by the statements *)

(** The compiler object after the first loop of [rebuild]. *)
Definition afterChanged (l : list string) (c : DiffingTSCompiler)
    : DiffingTSCompiler :=
  fold_left (fun c' p => markChanged p c') l c.

(** The compiler object after the registry part of the second loop. *)
Definition afterRemoved (l : list string) (c : DiffingTSCompiler)
    : DiffingTSCompiler :=
  fold_left (fun c' p => markRemoved p c') l c.

(** Removal of the first occurrence, the effect of
    [l.splice(l.indexOf(x), 1)] when [x] occurs in [l]. *)
Fixpoint removeFirst (x : string) (l : list string) : list string :=
  match l with
  | [] => []
  | y :: r => if decide (y = x) then r else y :: removeFirst x r
  end.

(** The cache directory after the writes [l]. *)
Definition writeAll (l : list OutputFile) (d : gmap string string)
    : gmap string string :=
  fold_left (fun d' o => <[name o := text o]> d') l d.

Definition hasFile (d : Diagnostic) : bool :=
  match file d with Some _ => true | None => false end.

(** The line [doFullBuild] builds for a diagnostic that has a file. *)
Definition fullBuildLine (d : Diagnostic) : string :=
  match file d with
  | Some fileName =>
      "  " +:+ fileName +:+ " (" +:+ pretty (line d + 1) +:+ ","
        +:+ pretty (character d + 1) +:+ "): " +:+ messageText d
  | None => ""
  end.

(** The condition under which the third loop of [rebuild] pushes a path
    onto [pathsWithErrors]: its emit was skipped and [logError] found a
    diagnostic. *)
Definition recordedFailed (svc : TsService) (p : string) : bool :=
  eo_emitSkipped (getEmitOutput svc p)
    && negb (length (allDiagnosticsOf svc p) =? 0).

(** The files the third loop of [rebuild] writes for one path. *)
Definition emitWrites (svc : TsService) (p : string) : list OutputFile :=
  if eo_emitSkipped (getEmitOutput svc p) then []
  else outputFiles (getEmitOutput svc p).

(** The files written by the third loop of [rebuild]: the output files of
    the paths whose emit was not skipped, in diff order. *)
Definition emittedFiles (svc : TsService) (pathsToEmit : list string)
    : list OutputFile :=
  flat_map (fun q => outputFiles (getEmitOutput svc q))
    (List.filter (fun q => negb (eo_emitSkipped (getEmitOutput svc q))) pathsToEmit).

Definition isGetEmitOutput (e : Event) : bool :=
  match e with GetEmitOutput _ => true | _ => false end.

Definition isWriteFile (e : Event) : bool :=
  match e with WriteFile _ _ => true | _ => false end.


Section Phases.

Variable path : NodePath.

Definition writeEvents (o : OutputFile) : list Event :=
  [Mkdirs (dirname path (name o)); WriteFile (name o) (text o)].

(** What the third loop of [rebuild] does for one path, as events. *)
Definition emitEvents (svc : TsService) (p : string) : list Event :=
  GetEmitOutput p ::
    (if eo_emitSkipped (getEmitOutput svc p)
     then map (fun d => ConsoleLog (errorLine d)) (allDiagnosticsOf svc p)
     else flat_map writeEvents (outputFiles (getEmitOutput svc p))).

(** The first two loops of [rebuild] (source lines 36-53). *)
Definition applyDiff (treeDiff : TreeDiff) : Js (list string) :=
  pathsToEmit ← forEach_push rebuild_changed [] (changedPaths treeDiff);
  forEach (rebuild_removed path) (removedPaths treeDiff) ;;
  mret pathsToEmit.

(** Whether a call of [rebuild] reaches the test of [firstRun] (source
    line 54) and finds it true. *)
Definition takesInitBranch (d : TreeDiff) (m : Machine) : bool :=
  match applyDiff d m with
  | (m1, Normal _) => firstRun (this m1)
  | (_, Throw _) => false
  end.

(** The number of cycles of a run that take the branch of the first
    run. *)
Fixpoint initBuilds (cycles : list (TsService * TreeDiff)) (m : Machine) : nat :=
  match cycles with
  | [] => 0
  | (svc, d) :: r =>
      (if takesInitBranch d m then 1 else 0)
        + initBuilds r (fst (rebuild path svc d m))
  end.

End Phases.

(** The number of times [p] is reported in the list [l]. *)
Definition occurrences (p : string) (l : list string) : nat :=
  length (List.filter (fun q => bool_decide (q = p)) l).

(** The number of changed-reports of [p] over the cycles of a run. *)
Definition reports (p : string) (cycles : list (TsService * TreeDiff)) : nat :=
  occurrences p (flat_map (fun c => changedPaths (snd c)) cycles).

(** The registry entry of a path after [n] changed-reports. *)
Fixpoint bump (n : nat) (e : option RegEntry) : option RegEntry :=
  match n with
  | 0 => e
  | S k =>
      bump k (match e with
              | Some (FileRecord v) => Some (FileRecord (S v))
              | Some Null | None => Some (FileRecord 0)
              end)
  end.

(** The root list and the registry agree: a path is a root exactly when
    its registry entry is a record. *)
Definition lockstep (c : DiffingTSCompiler) : Prop :=
  forall p, p ∈ rootFilePaths c <-> truthy (fileRegistry c !! p) = true.

(** The invariant that carries the induction: lockstep, and no path twice
    in the root list. *)
Definition rootsExact (c : DiffingTSCompiler) : Prop :=
  NoDup (rootFilePaths c) /\ lockstep c.

(** Every removed path is tracked when its removal is processed. *)
Fixpoint removalsTracked (l : list string) (c : DiffingTSCompiler) : bool :=
  match l with
  | [] => true
  | p :: r => truthy (fileRegistry c !! p) && removalsTracked r (markRemoved p c)
  end.

Definition diffConsistent (d : TreeDiff) (c : DiffingTSCompiler) : bool :=
  removalsTracked (removedPaths d) (afterChanged (changedPaths d) c).

(** ** Statements of the specification that the code does not satisfy

    Each is written as the specification words it; the properties section
    refutes it at a concrete input and proves the statement that holds. *)

Definition newEvents (m m' : Machine) : list Event :=
  drop (length (trace m)) (trace m').


Section Stated.

Variable path : NodePath.


(** "A changed path whose emit is skipped in a non-first cycle is recorded
    as failed, so the cycle sets the failure flag and throws." *)
Definition skippedEmitFailsCycle (svc : TsService) (d : TreeDiff)
    (m : Machine) : Prop :=
  firstRun (this m) = false ->
  forall m1 ps p,
    applyDiff path d m = (m1, Normal ps) ->
    p ∈ changedPaths d ->
    eo_emitSkipped (getEmitOutput svc p) = true ->
    previousRunFailed (this (fst (rebuild path svc d m))) = true /\
    snd (rebuild path svc d m) = Throw errorsFound.

(** "A removal reported for a path without a tracked record is a fatal
    error of the cycle": for a cycle whose diff removes [p] only. *)
Definition untrackedRemovalIsFatal (svc : TsService) (p : string)
    (m : Machine) : Prop :=
  truthy (fileRegistry (this m) !! p) = false ->
  exists e, snd (rebuild path svc (mkDiff [] [p]) m) = Throw e.

(** "In an incremental cycle, if a changed path fails to emit, [rebuild]
    sets [previousRunFailed] and throws; nothing is written for a failed
    path and what was written for the others stays": a path fails to emit
    when its emit is reported skipped. *)
Definition failedEmitAbortsCycle (svc : TsService) (d : TreeDiff)
    (m : Machine) : Prop :=
  firstRun (this m) = false ->
  forall m1 ps p,
    applyDiff path d m = (m1, Normal ps) ->
    p ∈ changedPaths d ->
    eo_emitSkipped (getEmitOutput svc p) = true ->
    snd (rebuild path svc d m)
      = Throw (Error "Typescript found errors listed above...") /\
    previousRunFailed (this (fst (rebuild path svc d m))) = true /\
    disk (fst (rebuild path svc d m))
      = writeAll (emittedFiles svc (changedPaths d)) (disk m1).

(** Every cycle of the run gets a consistent diff. *)
Fixpoint runConsistent (cycles : list (TsService * TreeDiff)) (m : Machine)
    : bool :=
  match cycles with
  | [] => true
  | (svc, d) :: r =>
      diffConsistent d (this m) && runConsistent r (fst (rebuild path svc d m))
  end.

(** "At the end of every cycle a path is in the root list if and only if
    it has a live record, provided the diffs are consistent": for a plugin
    constructed with the option [rootFilePaths] set to [preset]. *)
Definition lockstepAlways (preset : option (list string))
    (cycles : list (TsService * TreeDiff)) : Prop :=
  let m0 := mkMachine (new_DiffingTSCompiler "/in" "/cache" preset) ∅ [] in
  runConsistent cycles m0 = true ->
  lockstep (this (run path cycles m0)).

End Stated.

(** ** Concrete machines and services for the examples *)
Module Ex.

Definition cache : string := "/cache".

(** The three artifacts TypeScript emits for a source path. *)
Definition artifacts (p : string) : list OutputFile :=
  [ mkOutputFile (Posix.join cache (replace_dot_ts p ".js")) "js";
    mkOutputFile (Posix.join cache (replace_dot_ts p ".js.map")) "map";
    mkOutputFile (Posix.join cache (replace_dot_ts p ".d.ts")) "dts" ].

Definition syntaxError (p : string) : Diagnostic :=
  mkDiagnostic (Some p) 2 4 "';' expected.".

(** A service for which every file compiles. *)
Definition clean : TsService :=
  mkService (fun p => mkEmitOutput false (artifacts p)) []
    (fun _ => []) (fun _ => [])
    (fun fileNames => mkEmitResult false [] (flat_map artifacts fileNames))
    (fun _ => []).

(** A service for which [bad] has a syntax error and nothing else has. *)
Definition broken (bad : string) : TsService :=
  mkService
    (fun p => if decide (p = bad) then mkEmitOutput true []
              else mkEmitOutput false (artifacts p))
    []
    (fun p => if decide (p = bad) then [syntaxError bad] else [])
    (fun _ => [])
    (fun fileNames => mkEmitResult true [syntaxError bad] [])
    (fun _ => []).

(** A service that skips the emit of [quiet] and reports no diagnostic
    for it. *)
Definition silent (quiet : string) : TsService :=
  mkService
    (fun p => if decide (p = quiet) then mkEmitOutput true []
              else mkEmitOutput false (artifacts p))
    [] (fun _ => []) (fun _ => [])
    (fun fileNames => mkEmitResult false [] (flat_map artifacts fileNames))
    (fun _ => []).

(** A new plugin instance over an empty cache directory. *)
Definition fresh : Machine :=
  mkMachine (new_DiffingTSCompiler "/in" cache None) ∅ [].

(** The plugin after a clean first cycle that saw [a.ts]. *)
Definition steady : Machine :=
  mkMachine
    (mkCompiler "/in" cache {[ "a.ts" := FileRecord 0 ]} false false ["a.ts"])
    (writeAll (artifacts "a.ts") ∅) [].

(** The same plugin after a cycle in which a file failed to emit. *)
Definition degraded : Machine :=
  mkMachine
    (mkCompiler "/in" cache {[ "a.ts" := FileRecord 0 ]} false true ["a.ts"])
    (writeAll (artifacts "a.ts") ∅) [].

End Ex.

(** ** The rest of the source: the options object and the service host *)

(** The constructor as it acts on the object passed as [options]:
    [options.rootFilePaths.splice(0)] moves every preset root file out of
    the caller's array, which is left empty.  The second component is
    [options.rootFilePaths] after the call. *)
Definition construct (inputPath cachePath : string)
    (options_rootFilePaths : option (list string))
    : DiffingTSCompiler * option (list string) :=
  (new_DiffingTSCompiler inputPath cachePath options_rootFilePaths,
   match options_rootFilePaths with
   | Some _ => Some []
   | None => None
   end).

Definition backslash : ascii := ascii_of_nat 92.

(** [s.replace(/\\/g, '/')]: every backslash becomes a slash. *)
Fixpoint slashes (s : string) : string :=
  match s with
  | EmptyString => EmptyString
  | String c r =>
      String (if decide (c = backslash) then "/"%char else c) (slashes r)
  end.

(** The fields of [CustomLanguageServiceHost] that are its own;
    [fileNames] and [fileRegistry] are the arrays of the compiler object. *)
Record CustomLanguageServiceHost : Type := mkHost {
  treeInputPath : string;
  currentDirectory : string;
  defaultLibFilePath : string;
}.

(** The constructor of the host; [cwd] is [process.cwd()] and [libPath]
    is [ts.getDefaultLibFilePath(compilerOptions)]. *)
Definition new_CustomLanguageServiceHost (treeInputPath cwd libPath : string)
    : CustomLanguageServiceHost :=
  mkHost treeInputPath cwd (slashes libPath).

(** [fs.readFileSync] throws on a missing file. *)
Definition readFileSync (p : string) : Js string := fun m =>
  match disk m !! p with
  | Some content => (m, Normal content)
  | None => (m, Throw (ENOENT p))
  end.

(** The events of the second loop of [rebuild]. *)
Definition isRemovalEvent (e : Event) : bool :=
  match e with
  | ConsoleLog _ | Unlink _ => true
  | _ => false
  end.

Section Host.

Variable path : NodePath.

(** [getScriptSnapshot]; [None] is [undefined], [Some s] the snapshot
    [ts.ScriptSnapshot.fromString(s)]. *)
Definition getScriptSnapshot (h : CustomLanguageServiceHost)
    (tsFilePath : string) : Js (option string) :=
  let absoluteTsFilePath :=
    if decide (tsFilePath = defaultLibFilePath h) then tsFilePath
    else join path (treeInputPath h) tsFilePath in
  exists_ ← existsSync absoluteTsFilePath;
  if negb exists_ then mret None
  else content ← readFileSync absoluteTsFilePath; mret (Some content).

End Host.

(** ** More machines and services for the examples *)
Module Ex2.

(** A service whose full build skips its emit and reports nothing. *)
Definition skippedQuiet : TsService :=
  mkService (fun p => mkEmitOutput false (Ex.artifacts p)) []
    (fun _ => []) (fun _ => [])
    (fun fileNames => mkEmitResult true [] [])
    (fun _ => []).

(** A service whose full build skips its emit over a diagnostic of the
    compiler options, which has no file. *)
Definition globalError : TsService :=
  mkService (fun p => mkEmitOutput false (Ex.artifacts p)) []
    (fun _ => []) (fun _ => [])
    (fun fileNames => mkEmitResult true [] [])
    (fun _ => [mkDiagnostic None 0 0 "Unknown compiler option."]).

(** A new plugin over a cache directory left with [a.js] only. *)
Definition staleCache : Machine :=
  mkMachine (new_DiffingTSCompiler "/in" Ex.cache None)
    {[ "/cache/a.js" := "js" ]} [].

(** The plugin after a clean first cycle that saw [a.ts] and [b.ts]. *)
Definition two : Machine :=
  mkMachine
    (mkCompiler "/in" Ex.cache
       {[ "a.ts" := FileRecord 0; "b.ts" := FileRecord 0 ]} false false
       ["a.ts"; "b.ts"])
    (writeAll (Ex.artifacts "a.ts" ++ Ex.artifacts "b.ts") ∅) [].

Definition host : CustomLanguageServiceHost :=
  new_CustomLanguageServiceHost "/in" "/work" "/node/lib/lib.d.ts".

End Ex2.

(** * Properties *)

(** ** The monad and the loops *)

Ltac js_unfold :=
  unfold mbind, Js_bind, mret, Js_ret, throw, get_this, modify_this,
    console_log, observe, mkdirsSync, writeFileSync, existsSync in *.

Section PluginFacts.

Variable path : NodePath.

Lemma changed_loop (l : list string) : forall acc m,
  forEach_push rebuild_changed acc l m =
    (mkMachine (afterChanged l (this m)) (disk m) (trace m), Normal (acc ++ l)).
Proof.
  induction l as [|p l IH]; intros acc m; simpl.
  - destruct m; unfold mret, Js_ret; simpl. now rewrite app_nil_r.
  - unfold rebuild_changed at 1. js_unfold. simpl.
    rewrite IH. simpl. now rewrite <- app_assoc.
Qed.

Lemma write_loop (l : list OutputFile) : forall m,
  forEach (writeOutput path) l m =
    (mkMachine (this m) (writeAll l (disk m))
       (trace m ++ flat_map (writeEvents path) l), Normal tt).
Proof.
  induction l as [|o l IH]; intros m; simpl.
  - destruct m; unfold mret, Js_ret; simpl. now rewrite app_nil_r.
  - unfold writeOutput at 1. js_unfold. simpl. rewrite IH. simpl.
    now rewrite <- !app_assoc.
Qed.

Lemma log_loop (ds : list Diagnostic) : forall m,
  forEach (fun d => console_log (errorLine d)) ds m =
    (mkMachine (this m) (disk m)
       (trace m ++ map (fun d => ConsoleLog (errorLine d)) ds), Normal tt).
Proof.
  induction ds as [|d ds IH]; intros m; simpl.
  - destruct m; unfold mret, Js_ret; simpl. now rewrite app_nil_r.
  - js_unfold. simpl. rewrite IH. simpl. now rewrite <- app_assoc.
Qed.

Lemma logError_eq svc p m :
  logError svc p m =
    (mkMachine (this m) (disk m)
       (trace m ++ map (fun d => ConsoleLog (errorLine d)) (allDiagnosticsOf svc p)),
     Normal (negb (length (allDiagnosticsOf svc p) =? 0))).
Proof.
  unfold logError. unfold mbind, Js_bind. rewrite log_loop. reflexivity.
Qed.

Lemma rebuild_emit_eq svc acc p m :
  rebuild_emit path svc acc p m =
    (mkMachine (this m) (writeAll (emitWrites svc p) (disk m))
       (trace m ++ emitEvents path svc p),
     Normal (acc ++ (if recordedFailed svc p then [p] else []))).
Proof.
  unfold rebuild_emit, emitEvents, emitWrites, recordedFailed.
  unfold mbind at 1. unfold Js_bind at 1. unfold observe at 1.
  destruct (eo_emitSkipped (getEmitOutput svc p)); simpl.
  - unfold mbind, Js_bind. rewrite logError_eq. simpl.
    rewrite <- app_assoc. simpl.
    destruct (length (allDiagnosticsOf svc p) =? 0); simpl;
      unfold mret, Js_ret; now rewrite ?app_nil_r.
  - unfold mbind, Js_bind. rewrite write_loop. simpl.
    unfold mret, Js_ret. rewrite <- app_assoc. simpl. now rewrite app_nil_r.
Qed.

Lemma emit_loop svc (l : list string) : forall acc m,
  forEach_push (rebuild_emit path svc) acc l m =
    (mkMachine (this m) (writeAll (flat_map (emitWrites svc) l) (disk m))
       (trace m ++ flat_map (emitEvents path svc) l),
     Normal (acc ++ List.filter (recordedFailed svc) l)).
Proof.
  induction l as [|p l IH]; intros acc m; simpl.
  - destruct m; unfold mret, Js_ret; simpl. now rewrite !app_nil_r.
  - unfold mbind, Js_bind. rewrite rebuild_emit_eq. rewrite IH. simpl.
    unfold writeAll. rewrite fold_left_app. rewrite <- !app_assoc.
    f_equal. f_equal.
    destruct (recordedFailed svc p); reflexivity.
Qed.

Lemma messages_loop (ds : list Diagnostic) : forall acc m,
  forEach_push fullBuildMessage acc ds m =
    (m, if forallb hasFile ds then Normal (acc ++ map fullBuildLine ds)
        else Throw TypeError).
Proof.
  induction ds as [|d ds IH]; intros acc m; simpl.
  - unfold mret, Js_ret. now rewrite app_nil_r.
  - unfold mbind, Js_bind, fullBuildMessage, hasFile, fullBuildLine.
    destruct (file d) as [f|]; simpl.
    + unfold mret, Js_ret. rewrite IH. rewrite <- app_assoc. reflexivity.
    + reflexivity.
Qed.

(** [doFullBuild], outcome by outcome. *)
Lemma doFullBuild_eq svc m :
  doFullBuild path svc m =
    let fileNames := rootFilePaths (this m) in
    let r := program_emit svc fileNames in
    let ds := getPreEmitDiagnostics svc fileNames ++ diagnostics r in
    let d' := writeAll (written r) (disk m) in
    let t' := trace m ++ ProgramEmit fileNames :: flat_map (writeEvents path) (written r) in
    if er_emitSkipped r then
      if forallb hasFile ds then
        if negb (length ds =? 0) then
          (mkMachine (set_previousRunFailed true (this m)) d'
             (t' ++ [ConsoleLog (array_join newline (map fullBuildLine ds))]),
           Throw errorsFound)
        else (mkMachine (set_previousRunFailed false (this m)) d' t', Normal tt)
      else (mkMachine (this m) d' t', Throw TypeError)
    else (mkMachine (this m) d' t', Normal tt).
Proof.
  unfold doFullBuild, getScriptFileNames.
  unfold mbind at 1. unfold Js_bind at 1. unfold get_this at 1.
  unfold mbind at 1. unfold Js_bind at 1. unfold observe at 1.
  unfold mbind at 1. unfold Js_bind at 1. rewrite write_loop. simpl.
  rewrite <- app_assoc. simpl.
  destruct (er_emitSkipped (program_emit svc (rootFilePaths (this m)))).
  - unfold mbind at 1. unfold Js_bind at 1. rewrite messages_loop. simpl.
    destruct (forallb hasFile _); [|reflexivity].
    rewrite length_map.
    destruct (length _ =? 0); reflexivity.
  - reflexivity.
Qed.

(** [removeOutputFor], outcome by outcome. *)
Lemma removeOutputFor_eq p m :
  removeOutputFor path p m =
    let js := jsPathOf path (this m) p in
    let mp := mapPathOf path (this m) p in
    let dts := dtsPathOf path (this m) p in
    match disk m !! js with
    | None => (m, Normal tt)
    | Some _ =>
        let d1 := delete js (disk m) in
        match d1 !! mp with
        | None => (mkMachine (this m) d1 (trace m ++ [Unlink js]), Throw (ENOENT mp))
        | Some _ =>
            let d2 := delete mp d1 in
            match d2 !! dts with
            | None =>
                (mkMachine (this m) d2 (trace m ++ [Unlink js; Unlink mp]),
                 Throw (ENOENT dts))
            | Some _ =>
                (mkMachine (this m) (delete dts d2)
                   (trace m ++ [Unlink js; Unlink mp; Unlink dts]), Normal tt)
            end
        end
    end.
Proof.
  unfold removeOutputFor. js_unfold. unfold unlinkSync. simpl.
  case_bool_decide as Hex.
  - destruct Hex as [x Hjs]. rewrite Hjs. simpl.
    destruct (delete _ (disk m) !! mapPathOf path (this m) p); simpl; [|reflexivity].
    destruct (delete _ (delete _ (disk m)) !! dtsPathOf path (this m) p); simpl.
    + now rewrite <- !app_assoc.
    + now rewrite <- !app_assoc.
  - destruct (disk m !! jsPathOf path (this m) p) eqn:Hjs; [|reflexivity].
    exfalso. apply Hex. eauto.
Qed.

Lemma removeOutputFor_this p m :
  this (fst (removeOutputFor path p m)) = this m.
Proof.
  rewrite removeOutputFor_eq. simpl.
  repeat (match goal with |- context [match ?x with _ => _ end] => destruct x end);
    reflexivity.
Qed.

Lemma rebuild_removed_this p m :
  this (fst (rebuild_removed path p m)) = markRemoved p (this m).
Proof.
  unfold rebuild_removed.
  unfold mbind, Js_bind, console_log, observe, modify_this. simpl.
  match goal with |- context [removeOutputFor path p ?m1] =>
    pose proof (removeOutputFor_this p m1) as H;
    destruct (removeOutputFor path p m1) as [m2 [[]|e]] end; exact H.
Qed.

(** The second loop stops at the first removal that throws; the registry
    and the root list have then been updated for a prefix of the removed
    paths, the throwing one included. *)
Lemma removed_loop_prefix (l : list string) : forall m,
  exists l1 l2, l = l1 ++ l2 /\
    this (fst (forEach (rebuild_removed path) l m)) = afterRemoved l1 (this m) /\
    (forall u, snd (forEach (rebuild_removed path) l m) = Normal u -> l2 = []).
Proof.
  induction l as [|p l IH]; intros m; simpl.
  - exists [], []. repeat split; reflexivity.
  - unfold mbind, Js_bind.
    pose proof (rebuild_removed_this p m) as Hp.
    destruct (rebuild_removed path p m) as [m1 [[]|e]]; simpl in *.
    + destruct (IH m1) as (l1 & l2 & -> & Hthis & Hn).
      exists (p :: l1), l2. repeat split; [|exact Hn].
      rewrite Hthis, Hp. reflexivity.
    + exists [p], l. repeat split; [now rewrite Hp | discriminate].
Qed.

Lemma removed_loop_normal l m m' u :
  forEach (rebuild_removed path) l m = (m', Normal u) ->
  this m' = afterRemoved l (this m).
Proof.
  intros H. destruct (removed_loop_prefix l m) as (l1 & l2 & -> & Hthis & Hn).
  rewrite H in *. simpl in *. rewrite (Hn u eq_refl), app_nil_r. exact Hthis.
Qed.

Lemma applyDiff_eq d m :
  applyDiff path d m =
    match forEach (rebuild_removed path) (removedPaths d)
            (mkMachine (afterChanged (changedPaths d) (this m)) (disk m) (trace m)) with
    | (m1, Normal _) => (m1, Normal (changedPaths d))
    | (m1, Throw e) => (m1, Throw e)
    end.
Proof.
  unfold applyDiff. unfold mbind at 1. unfold Js_bind at 1.
  rewrite changed_loop. simpl. unfold mbind, Js_bind.
  destruct (forEach _ _ _) as [m1 [u|e]]; reflexivity.
Qed.

Lemma rebuild_eq svc d m :
  rebuild path svc d m =
    match applyDiff path d m with
    | (m1, Normal pathsToEmit) => rebuild_build path svc pathsToEmit m1
    | (m1, Throw e) => (m1, Throw e)
    end.
Proof.
  rewrite applyDiff_eq. unfold rebuild. unfold mbind at 1. unfold Js_bind at 1.
  rewrite changed_loop. simpl. unfold mbind, Js_bind.
  destruct (forEach _ _ _) as [m1 [u|e]]; reflexivity.
Qed.

(** The build part of [rebuild], branch by branch. *)
Lemma rebuild_build_eq svc ps m :
  rebuild_build path svc ps m =
    if firstRun (this m) then
      doFullBuild path svc
        (mkMachine (set_firstRun false (this m)) (disk m) (trace m))
    else
      let m2 :=
        mkMachine (this m) (writeAll (flat_map (emitWrites svc) ps) (disk m))
          (trace m ++ flat_map (emitEvents path svc) ps) in
      if negb (length (List.filter (recordedFailed svc) ps) =? 0) then
        (mkMachine (set_previousRunFailed true (this m)) (disk m2) (trace m2),
         Throw errorsFound)
      else if previousRunFailed (this m) then doFullBuild path svc m2
      else (m2, Normal tt).
Proof.
  unfold rebuild_build. unfold mbind at 1. unfold Js_bind at 1.
  unfold get_this at 1.
  destruct (firstRun (this m)).
  - reflexivity.
  - unfold mbind at 1. unfold Js_bind at 1. rewrite emit_loop. simpl.
    destruct (length _ =? 0); simpl; [|reflexivity].
    unfold mbind, Js_bind, get_this. simpl.
    destruct (previousRunFailed (this m)); reflexivity.
Qed.

Lemma afterChanged_flags l : forall c,
  firstRun (afterChanged l c) = firstRun c /\
  previousRunFailed (afterChanged l c) = previousRunFailed c /\
  cachePath (afterChanged l c) = cachePath c.
Proof.
  induction l as [|p l IH]; intros c; simpl; [auto|].
  destruct (IH (markChanged p c)) as (-> & -> & ->).
  unfold markChanged. destruct (fileRegistry c !! p) as [[v|]|]; auto.
Qed.

Lemma afterRemoved_flags l : forall c,
  firstRun (afterRemoved l c) = firstRun c /\
  previousRunFailed (afterRemoved l c) = previousRunFailed c /\
  cachePath (afterRemoved l c) = cachePath c.
Proof.
  induction l as [|p l IH]; intros c; simpl; [auto|].
  destruct (IH (markRemoved p c)) as (-> & -> & ->). auto.
Qed.

(** The first two loops leave the run flags alone, whether or not the
    second one throws. *)
Lemma applyDiff_flags d m :
  firstRun (this (fst (applyDiff path d m))) = firstRun (this m) /\
  previousRunFailed (this (fst (applyDiff path d m))) = previousRunFailed (this m).
Proof.
  rewrite applyDiff_eq.
  match goal with |- context [forEach ?f ?l ?m0] =>
    destruct (removed_loop_prefix l m0) as (l1 & l2 & _ & Hthis & _);
    destruct (forEach f l m0) as [m1 [u|e]] end; simpl in *;
  rewrite Hthis;
  destruct (afterRemoved_flags l1 (afterChanged (changedPaths d) (this m))) as (-> & -> & _);
  destruct (afterChanged_flags (changedPaths d) (this m)) as (-> & -> & _); auto.
Qed.

Lemma doFullBuild_firstRun svc m :
  firstRun (this (fst (doFullBuild path svc m))) = firstRun (this m).
Proof.
  rewrite doFullBuild_eq. simpl.
  repeat (match goal with |- context [if ?x then _ else _] => destruct x end);
    reflexivity.
Qed.

End PluginFacts.

(** ** [indexOf] and [splice] *)

Lemma indexOf_bounds l x : (-1 <= indexOf l x < Z.of_nat (length l))%Z.
Proof.
  induction l as [|y l IH]; simpl; [lia|].
  destruct (decide (y = x)); [lia|].
  destruct (indexOf l x <? 0)%Z eqn:E; lia.
Qed.

Lemma indexOf_absent l x : x ∉ l -> indexOf l x = (-1)%Z.
Proof.
  induction l as [|y l IH]; simpl; intros H; [reflexivity|].
  rewrite not_elem_of_cons in H. destruct H as [Hne Hni].
  rewrite decide_False by congruence. now rewrite (IH Hni).
Qed.

Lemma indexOf_present l x : x ∈ l -> (0 <= indexOf l x)%Z.
Proof.
  induction l as [|y l IH]; simpl; intros H; [now apply elem_of_nil in H|].
  destruct (decide (y = x)); [lia|].
  apply elem_of_cons in H as [->|H]; [congruence|].
  specialize (IH H). destruct (indexOf l x <? 0)%Z eqn:E; lia.
Qed.

Lemma splice1_nonneg (l : list string) (i : Z) :
  (0 <= i < Z.of_nat (length l))%Z -> splice1 l i = delete (Z.to_nat i) l.
Proof.
  intros Hi. unfold splice1.
  destruct (i <? 0)%Z eqn:E; [lia|].
  now rewrite Z.min_l by lia.
Qed.

Lemma splice_indexOf_present l x :
  x ∈ l -> splice1 l (indexOf l x) = removeFirst x l.
Proof.
  intros H. rewrite splice1_nonneg
    by (pose proof (indexOf_bounds l x); pose proof (indexOf_present l x H); lia).
  induction l as [|y l IH]; simpl; [now apply elem_of_nil in H|].
  destruct (decide (y = x)); [reflexivity|].
  apply elem_of_cons in H as [->|H]; [congruence|].
  pose proof (indexOf_present l x H) as Hp.
  destruct (indexOf l x <? 0)%Z eqn:E; [lia|].
  replace (Z.to_nat (indexOf l x + 1)) with (S (Z.to_nat (indexOf l x))) by lia.
  simpl. f_equal. now apply IH.
Qed.

(** When [x] does not occur, [indexOf] answers -1 and [splice(-1, 1)]
    removes the last element. *)
Lemma splice_indexOf_absent l x :
  x ∉ l -> splice1 l (indexOf l x) = removelast l.
Proof.
  intros H. rewrite (indexOf_absent l x H). unfold splice1. simpl.
  destruct l as [|y l]; [reflexivity|].
  replace (Z.to_nat (Z.max (Z.of_nat (length (y :: l)) + -1) 0)) with (length l)
    by (simpl; lia).
  clear H. revert y. induction l as [|z l IH]; intros y; [reflexivity|].
  change (delete (length (z :: l)) (y :: z :: l)) with (y :: delete (length l) (z :: l)).
  rewrite IH. reflexivity.
Qed.

Lemma elem_of_removeFirst x l y :
  NoDup l -> (y ∈ removeFirst x l <-> y ∈ l /\ y ≠ x).
Proof.
  induction 1 as [|z l Hz Hnd IH]; simpl.
  - split; [intros H; now apply elem_of_nil in H | intros [H _]; exact H].
  - destruct (decide (z = x)) as [->|Hne].
    + rewrite elem_of_cons. split.
      * intros H. split; [now right|]. intros ->. contradiction.
      * intros [[->|H] Hy]; [congruence|exact H].
    + rewrite !elem_of_cons, IH. split.
      * intros [->|[H Hy]]; [split; [now left|congruence] | split; [now right|exact Hy]].
      * intros [[->|H] Hy]; [now left | right; split; assumption].
Qed.

Lemma NoDup_removeFirst x l : NoDup l -> NoDup (removeFirst x l).
Proof.
  induction 1 as [|z l Hz Hnd IH]; simpl; [constructor|].
  destruct (decide (z = x)); [exact Hnd|].
  constructor; [|exact IH].
  rewrite elem_of_removeFirst by exact Hnd. tauto.
Qed.

(** ** C1: what a cycle does in the DEGRADED state *)

Section DegradedCycle.

Variable path : NodePath.



Lemma writeEvents_no_request (l : list OutputFile) :
  forallb (fun e => negb (isGetEmitOutput e)) (flat_map (writeEvents path) l) = true.
Proof. induction l; simpl; auto. Qed.

(** A full build starts with [program.emit] over the whole root list and
    asks for no per-path emit. *)
Lemma doFullBuild_trace svc m :
  exists post,
    trace (fst (doFullBuild path svc m))
      = trace m ++ ProgramEmit (rootFilePaths (this m)) :: post /\
    forallb (fun e => negb (isGetEmitOutput e)) post = true.
Proof.
  rewrite doFullBuild_eq. simpl.
  set (w := flat_map (writeEvents path) _).
  assert (Hw : forallb (fun e => negb (isGetEmitOutput e)) w = true)
    by apply writeEvents_no_request.
  destruct (er_emitSkipped _); [destruct (forallb hasFile _); [destruct (negb _)|]|];
    simpl; try (exists w; split; [reflexivity|exact Hw]).
  eexists. split.
  - rewrite <- app_assoc. simpl. reflexivity.
  - rewrite forallb_app, Hw. reflexivity.
Qed.


End DegradedCycle.



(** ** C2: the failure flag after a cycle that completes *)

Section FlagAfterCycle.

Variable path : NodePath.

Lemma applyDiff_normal_paths d m m1 ps :
  applyDiff path d m = (m1, Normal ps) -> ps = changedPaths d.
Proof.
  rewrite applyDiff_eq. destruct (forEach _ _ _) as [m' [u|e]]; congruence.
Qed.

(** The flag after any cycle that returns normally: it is cleared only by
    a full build whose emit was skipped without diagnostics. *)
Lemma normal_cycle_flag svc d m m1 ps :
  applyDiff path d m = (m1, Normal ps) ->
  snd (rebuild path svc d m) = Normal tt ->
  previousRunFailed (this (fst (rebuild path svc d m)))
    = previousRunFailed (this m)
        && negb (er_emitSkipped (program_emit svc (rootFilePaths (this m1)))).
Proof.
  intros Hdiff. pose proof (applyDiff_normal_paths _ _ _ _ Hdiff) as ->.
  destruct (applyDiff_flags path d m) as [_ Hprf].
  rewrite Hdiff in Hprf. simpl in Hprf. rewrite <- Hprf.
  rewrite rebuild_eq, Hdiff, rebuild_build_eq.
  destruct (firstRun (this m1)).
  - rewrite doFullBuild_eq. simpl.
    destruct (er_emitSkipped _); simpl.
    + destruct (forallb hasFile _); [|discriminate].
      destruct (negb _); [discriminate|]. simpl. now rewrite andb_false_r.
    + now rewrite andb_true_r.
  - simpl. destruct (negb (length _ =? 0)); [discriminate|].
    destruct (previousRunFailed (this m1)) eqn:E; [|intros _; simpl; exact E].
    rewrite doFullBuild_eq. simpl.
    destruct (er_emitSkipped _); simpl.
    + destruct (forallb hasFile _); [|discriminate].
      destruct (negb _); [discriminate|]. reflexivity.
    + now rewrite E.
Qed.

(** C2 (what the code does where the claim fails).  In the DEGRADED state,
    a cycle in which no changed path is recorded as failed and whose full
    build emits without being skipped returns normally and leaves
    [previousRunFailed] true: [doFullBuild] assigns the flag only inside
    its [emitSkipped] branch. *)
Theorem degraded_flag_survives_clean_build svc d m m1 ps :
  firstRun (this m) = false ->
  previousRunFailed (this m) = true ->
  applyDiff path d m = (m1, Normal ps) ->
  List.filter (recordedFailed svc) (changedPaths d) = [] ->
  er_emitSkipped (program_emit svc (rootFilePaths (this m1))) = false ->
  snd (rebuild path svc d m) = Normal tt /\
  previousRunFailed (this (fst (rebuild path svc d m))) = true.
Proof.
  intros Hfr Hprf Hdiff Hnone Hclean.
  assert (Hret : snd (rebuild path svc d m) = Normal tt).
  { pose proof (applyDiff_normal_paths _ _ _ _ Hdiff) as ->.
    destruct (applyDiff_flags path d m) as [Hfr1 Hprf1].
    rewrite Hdiff in Hfr1, Hprf1. simpl in Hfr1, Hprf1.
    rewrite rebuild_eq, Hdiff, rebuild_build_eq, Hfr1, Hfr, Hnone, Hprf1, Hprf.
    simpl. rewrite doFullBuild_eq. simpl. now rewrite Hclean. }
  split; [exact Hret|].
  rewrite (normal_cycle_flag svc d m m1 ps Hdiff Hret), Hprf, Hclean. reflexivity.
Qed.

End FlagAfterCycle.

Lemma degraded_flag_survives_clean_build_witness :
  firstRun (this Ex.degraded) = false /\
  previousRunFailed (this Ex.degraded) = true /\
  List.filter (recordedFailed Ex.clean) ["c.ts"] = [] /\
  er_emitSkipped (program_emit Ex.clean ["a.ts"; "c.ts"]) = false /\
  snd (rebuild Posix.path Ex.clean (mkDiff ["c.ts"] []) Ex.degraded) = Normal tt /\
  previousRunFailed
    (this (fst (rebuild Posix.path Ex.clean (mkDiff ["c.ts"] []) Ex.degraded))) = true.
Proof.
  repeat (split; [reflexivity|]).
  apply (degraded_flag_survives_clean_build Posix.path Ex.clean
           (mkDiff ["c.ts"] []) Ex.degraded
           (fst (applyDiff Posix.path (mkDiff ["c.ts"] []) Ex.degraded))
           ["c.ts"]); reflexivity.
Defined.

(** ** C3 and C4: the incremental emission of a non-first cycle *)

Section IncrementalEmission.

Variable path : NodePath.

(** The machine on which the build part of [rebuild] runs keeps the flags
    of the machine on which [rebuild] was called. *)
Lemma rebuild_nonfirst svc d m m1 ps :
  firstRun (this m) = false ->
  applyDiff path d m = (m1, Normal ps) ->
  rebuild path svc d m =
    let m2 :=
      mkMachine (this m1)
        (writeAll (flat_map (emitWrites svc) (changedPaths d)) (disk m1))
        (trace m1 ++ flat_map (emitEvents path svc) (changedPaths d)) in
    if negb (length (List.filter (recordedFailed svc) (changedPaths d)) =? 0) then
      (mkMachine (set_previousRunFailed true (this m1)) (disk m2) (trace m2),
       Throw errorsFound)
    else if previousRunFailed (this m) then doFullBuild path svc m2
    else (m2, Normal tt).
Proof.
  intros Hfr Hdiff.
  pose proof (applyDiff_normal_paths _ _ _ _ _ Hdiff) as ->.
  destruct (applyDiff_flags path d m) as [Hfr1 Hprf1].
  rewrite Hdiff in Hfr1, Hprf1. simpl in Hfr1, Hprf1.
  rewrite rebuild_eq, Hdiff, rebuild_build_eq, Hfr1, Hfr, Hprf1. reflexivity.
Qed.

Lemma filter_recordedFailed_In svc (l : list string) p :
  p ∈ l -> recordedFailed svc p = true ->
  negb (length (List.filter (recordedFailed svc) l) =? 0) = true.
Proof.
  intros Hin Hp.
  assert (H : In p (List.filter (recordedFailed svc) l)).
  { apply filter_In. split; [now apply list_elem_of_In|exact Hp]. }
  destruct (List.filter (recordedFailed svc) l); [destruct H|reflexivity].
Qed.

Lemma filter_recordedFailed_none svc (l : list string) :
  (forall q, q ∈ l -> recordedFailed svc q = false) ->
  List.filter (recordedFailed svc) l = [].
Proof.
  induction l as [|q l IH]; intros H; [reflexivity|].
  simpl. rewrite (H q) by apply list_elem_of_here.
  apply IH. intros q' Hq'. apply H. now apply list_elem_of_further.
Qed.

Lemma emitEvents_split svc (l : list string) p :
  p ∈ l ->
  exists pre post,
    flat_map (emitEvents path svc) l = pre ++ emitEvents path svc p ++ post.
Proof.
  intros Hin. apply list_elem_of_split in Hin as (l1 & l2 & ->).
  exists (flat_map (emitEvents path svc) l1), (flat_map (emitEvents path svc) l2).
  rewrite flat_map_app. reflexivity.
Qed.

(** Whatever a non-first cycle does after the third loop only extends the
    trace. *)
Lemma rebuild_nonfirst_trace svc d m m1 ps :
  firstRun (this m) = false ->
  applyDiff path d m = (m1, Normal ps) ->
  exists post,
    trace (fst (rebuild path svc d m))
      = trace m1 ++ flat_map (emitEvents path svc) (changedPaths d) ++ post.
Proof.
  intros Hfr Hdiff. rewrite (rebuild_nonfirst svc d m m1 ps Hfr Hdiff). simpl.
  destruct (negb _); [exists []; simpl; now rewrite app_nil_r|].
  destruct (previousRunFailed (this m)).
  - match goal with |- context [doFullBuild path svc ?m2] =>
      destruct (doFullBuild_trace path svc m2) as (post & -> & _) end.
    simpl. eexists. rewrite <- app_assoc. reflexivity.
  - exists []. simpl. now rewrite app_nil_r.
Qed.

(** C3 (as the code has it).  In a non-first cycle, for a changed path
    whose emit is reported skipped, the compiler-options, syntactic and
    semantic diagnostics of that path are logged, one line each, right
    after the emit request.  The path is recorded as failed when that list
    of diagnostics is not empty, and then the cycle sets the failure flag
    and throws; a skipped path without diagnostics is not recorded, and a
    STEADY cycle whose skipped paths all have none returns normally with
    the flag clear. *)
Theorem skipped_emit_logged_and_recorded svc d m m1 ps p :
  firstRun (this m) = false ->
  applyDiff path d m = (m1, Normal ps) ->
  p ∈ changedPaths d ->
  eo_emitSkipped (getEmitOutput svc p) = true ->
  let out := rebuild path svc d m in
  (exists pre post,
     trace (fst out) =
       pre ++ GetEmitOutput p ::
         map (fun x => ConsoleLog (errorLine x))
           (getCompilerOptionsDiagnostics svc
              ++ getSyntacticDiagnostics svc p
              ++ getSemanticDiagnostics svc p) ++ post) /\
  (allDiagnosticsOf svc p <> [] ->
     recordedFailed svc p = true /\
     previousRunFailed (this (fst out)) = true /\
     snd out = Throw errorsFound) /\
  (allDiagnosticsOf svc p = [] -> recordedFailed svc p = false) /\
  ((forall q, q ∈ changedPaths d ->
      eo_emitSkipped (getEmitOutput svc q) = true -> allDiagnosticsOf svc q = []) ->
   previousRunFailed (this m) = false ->
   snd out = Normal tt /\ previousRunFailed (this (fst out)) = false).
Proof.
  intros Hfr Hdiff Hin Hskip out.
  destruct (applyDiff_flags path d m) as [_ Hprf1].
  rewrite Hdiff in Hprf1. simpl in Hprf1.
  split; [|split; [|split]].
  - destruct (rebuild_nonfirst_trace svc d m m1 ps Hfr Hdiff) as (post & Ht).
    destruct (emitEvents_split svc _ p Hin) as (pre & post' & Hsplit).
    exists (trace m1 ++ pre), (post' ++ post).
    unfold out. rewrite Ht, Hsplit. unfold emitEvents. rewrite Hskip.
    unfold allDiagnosticsOf. rewrite <- !app_assoc. simpl.
    rewrite <- ?app_assoc. reflexivity.
  - intros Hds.
    assert (Hrec : recordedFailed svc p = true).
    { unfold recordedFailed. rewrite Hskip. simpl.
      destruct (allDiagnosticsOf svc p); [congruence|reflexivity]. }
    split; [exact Hrec|].
    unfold out. rewrite (rebuild_nonfirst svc d m m1 ps Hfr Hdiff). simpl.
    rewrite (filter_recordedFailed_In svc _ p Hin Hrec). split; reflexivity.
  - intros Hds. unfold recordedFailed. rewrite Hds. simpl. apply andb_false_r.
  - intros Hall Hprf.
    unfold out. rewrite (rebuild_nonfirst svc d m m1 ps Hfr Hdiff). simpl.
    rewrite filter_recordedFailed_none, Hprf; [simpl; split; [reflexivity|]|].
    + congruence.
    + intros q Hq. unfold recordedFailed.
      destruct (eo_emitSkipped (getEmitOutput svc q)) eqn:E; [|reflexivity].
      rewrite (Hall q Hq E). reflexivity.
Qed.

End IncrementalEmission.

Lemma skipped_emit_logged_and_recorded_witness :
  firstRun (this Ex.steady) = false /\
  "b.ts" ∈ ["b.ts"] /\
  eo_emitSkipped (getEmitOutput (Ex.broken "b.ts") "b.ts") = true /\
  allDiagnosticsOf (Ex.broken "b.ts") "b.ts" <> [] /\
  previousRunFailed
    (this (fst (rebuild Posix.path (Ex.broken "b.ts") (mkDiff ["b.ts"] []) Ex.steady)))
    = true /\
  snd (rebuild Posix.path (Ex.broken "b.ts") (mkDiff ["b.ts"] []) Ex.steady)
    = Throw errorsFound.
Proof.
  split; [reflexivity|]. split; [apply list_elem_of_here|].
  split; [reflexivity|]. split; [discriminate|].
  apply (skipped_emit_logged_and_recorded Posix.path (Ex.broken "b.ts")
           (mkDiff ["b.ts"] []) Ex.steady
           (fst (applyDiff Posix.path (mkDiff ["b.ts"] []) Ex.steady))
           ["b.ts"] "b.ts" eq_refl eq_refl (list_elem_of_here _ _) eq_refl).
  discriminate.
Defined.

(** The statement of the specification fails in a STEADY cycle over
    [b.ts] when the service skips the emit of [b.ts] and has no diagnostic
    for it: the cycle returns normally. *)
Lemma skippedEmitFailsCycle_counterexample :
  ~ skippedEmitFailsCycle Posix.path (Ex.silent "b.ts") (mkDiff ["b.ts"] []) Ex.steady.
Proof.
  intros H.
  destruct (H eq_refl _ _ "b.ts" eq_refl (list_elem_of_here _ _) eq_refl) as [_ H2].
  vm_compute in H2. discriminate.
Qed.

Section FailedEmission.

Variable path : NodePath.

Lemma emitWrites_emittedFiles svc (l : list string) :
  flat_map (emitWrites svc) l = emittedFiles svc l.
Proof.
  unfold emittedFiles, emitWrites.
  induction l as [|q l IH]; [reflexivity|]. simpl.
  destruct (eo_emitSkipped (getEmitOutput svc q)); simpl; now rewrite IH.
Qed.

Lemma emitEvents_writes svc (l : list string) :
  List.filter isWriteFile (flat_map (emitEvents path svc) l)
    = map (fun o => WriteFile (name o) (text o)) (flat_map (emitWrites svc) l).
Proof.
  induction l as [|q l IH]; [reflexivity|].
  simpl. rewrite List.filter_app, map_app, IH. f_equal.
  unfold emitWrites. destruct (eo_emitSkipped (getEmitOutput svc q)).
  - induction (allDiagnosticsOf svc q); simpl; auto.
  - induction (outputFiles (getEmitOutput svc q)); simpl; [reflexivity|].
    now f_equal.
Qed.

Lemma writeAll_is_Some (l : list OutputFile) : forall (d : gmap string string) o,
  o ∈ l -> is_Some (writeAll l d !! name o).
Proof.
  assert (Hkeep : forall (l' : list OutputFile) (d : gmap string string) k,
            is_Some (d !! k) -> is_Some (writeAll l' d !! k)).
  { induction l' as [|o' l' IH]; intros d k Hk; [exact Hk|].
    simpl. apply IH. rewrite lookup_insert_is_Some.
    destruct (decide (name o' = k)); [now left | right; split; assumption]. }
  induction l as [|o' l IH]; intros d o Hin; [now apply elem_of_nil in Hin|].
  apply elem_of_cons in Hin as [->|Hin]; simpl.
  - apply Hkeep. rewrite lookup_insert_eq. eauto.
  - now apply IH.
Qed.

Lemma failed_paths_write_nothing svc (l : list string) :
  emittedFiles svc (List.filter (recordedFailed svc) l) = [].
Proof.
  unfold emittedFiles, recordedFailed.
  induction l as [|q l IH]; [reflexivity|]. simpl.
  destruct (eo_emitSkipped (getEmitOutput svc q)) eqn:E; simpl; [|exact IH].
  destruct (negb _); simpl; [|exact IH]. rewrite E. simpl. exact IH.
Qed.

(** C4 (as the code has it).  In a non-first cycle in which some changed
    path is recorded as failed (its emit was skipped and diagnostics were
    found), [rebuild]
    sets [previousRunFailed] and throws the error "Typescript found errors
    listed above...".  The files written during the cycle's emission are
    exactly the output files of the paths whose emit was not skipped:
    nothing is written for a skipped path, and every file written for
    another path is in the cache directory when the error is thrown. *)
Theorem failed_emit_fails_cycle svc d m m1 ps p :
  firstRun (this m) = false ->
  applyDiff path d m = (m1, Normal ps) ->
  p ∈ changedPaths d ->
  recordedFailed svc p = true ->
  let out := rebuild path svc d m in
  snd out = Throw (Error "Typescript found errors listed above...") /\
  previousRunFailed (this (fst out)) = true /\
  List.filter isWriteFile (newEvents m1 (fst out))
    = map (fun o => WriteFile (name o) (text o)) (emittedFiles svc (changedPaths d)) /\
  emittedFiles svc (List.filter (recordedFailed svc) (changedPaths d)) = [] /\
  disk (fst out) = writeAll (emittedFiles svc (changedPaths d)) (disk m1) /\
  (forall o, o ∈ emittedFiles svc (changedPaths d) ->
     is_Some (disk (fst out) !! name o)).
Proof.
  intros Hfr Hdiff Hin Hrec out.
  unfold out. rewrite (rebuild_nonfirst path svc d m m1 ps Hfr Hdiff). simpl.
  rewrite (filter_recordedFailed_In svc _ p Hin Hrec). simpl.
  rewrite emitWrites_emittedFiles.
  split; [reflexivity|]. split; [reflexivity|]. split; [|split; [|split]].
  - unfold newEvents. simpl. rewrite drop_app_length.
    rewrite emitEvents_writes, emitWrites_emittedFiles. reflexivity.
  - apply failed_paths_write_nothing.
  - reflexivity.
  - intros o Ho. now apply writeAll_is_Some.
Qed.

End FailedEmission.

Lemma failed_emit_fails_cycle_witness :
  firstRun (this Ex.steady) = false /\
  "b.ts" ∈ ["c.ts"; "b.ts"] /\
  recordedFailed (Ex.broken "b.ts") "b.ts" = true /\
  let out :=
    rebuild Posix.path (Ex.broken "b.ts") (mkDiff ["c.ts"; "b.ts"] []) Ex.steady in
  snd out = Throw (Error "Typescript found errors listed above...") /\
  previousRunFailed (this (fst out)) = true /\
  disk (fst out) !! "/cache/c.js" = Some "js" /\
  disk (fst out) !! "/cache/b.js" = None.
Proof.
  split; [reflexivity|].
  split; [apply list_elem_of_further, list_elem_of_here|].
  split; [reflexivity|].
  destruct (failed_emit_fails_cycle Posix.path (Ex.broken "b.ts")
              (mkDiff ["c.ts"; "b.ts"] []) Ex.steady
              (fst (applyDiff Posix.path (mkDiff ["c.ts"; "b.ts"] []) Ex.steady))
              ["c.ts"; "b.ts"] "b.ts" eq_refl eq_refl
              (list_elem_of_further _ _ _ (list_elem_of_here _ _)) eq_refl)
    as (H1 & H2 & _ & _ & H3 & _).
  split; [exact H1|]. split; [exact H2|].
  rewrite H3. split; vm_compute; reflexivity.
Defined.

(** The statement of the specification fails in a STEADY cycle over
    [c.ts] and [b.ts] when the service emits [c.ts] and skips the emit of
    [b.ts] without a diagnostic for it: [b.ts] fails to emit, yet the
    cycle returns normally. *)
Lemma failedEmitAbortsCycle_counterexample :
  ~ failedEmitAbortsCycle Posix.path (Ex.silent "b.ts")
      (mkDiff ["c.ts"; "b.ts"] []) Ex.steady.
Proof.
  intros H.
  destruct (H eq_refl _ _ "b.ts" eq_refl
              (list_elem_of_further _ _ _ (list_elem_of_here _ _)) eq_refl)
    as [H1 _].
  vm_compute in H1. discriminate.
Qed.

(** ** C5 and C10: version counters *)

Lemma bump_add a : forall b e, bump (a + b) e = bump b (bump a e).
Proof. induction a as [|a IH]; intros b e; simpl; [reflexivity|apply IH]. Qed.

Lemma bump_record n : forall v,
  bump n (Some (FileRecord v)) = Some (FileRecord (v + n)).
Proof.
  induction n as [|n IH]; intros v; simpl.
  - f_equal. f_equal. lia.
  - rewrite IH. f_equal. f_equal. lia.
Qed.

Lemma bump_untracked n e :
  truthy e = false -> 1 <= n -> bump n e = Some (FileRecord (n - 1)).
Proof.
  intros He Hn. destruct n as [|n]; [lia|]. simpl.
  replace (match e with Some (FileRecord v) => _ | _ => _ end)
    with (Some (FileRecord 0)) by (destruct e as [[v|]|]; [discriminate| |]; reflexivity).
  rewrite bump_record. f_equal. f_equal. lia.
Qed.

Lemma markChanged_lookup p c :
  fileRegistry (markChanged p c) !! p = bump 1 (fileRegistry c !! p).
Proof.
  unfold markChanged. simpl.
  destruct (fileRegistry c !! p) as [[v|]|]; simpl; apply lookup_insert_eq.
Qed.

Lemma markChanged_lookup_ne p q c :
  p <> q -> fileRegistry (markChanged p c) !! q = fileRegistry c !! q.
Proof.
  intros Hne. unfold markChanged.
  destruct (fileRegistry c !! p) as [[v|]|]; simpl; now apply lookup_insert_ne.
Qed.

Lemma afterChanged_lookup p (l : list string) : forall c,
  fileRegistry (afterChanged l c) !! p
    = bump (occurrences p l) (fileRegistry c !! p).
Proof.
  unfold occurrences.
  induction l as [|q l IH]; intros c; [reflexivity|].
  simpl. rewrite IH. case_bool_decide as E.
  - subst q. rewrite markChanged_lookup. reflexivity.
  - rewrite markChanged_lookup_ne by exact E. reflexivity.
Qed.

Lemma afterRemoved_lookup_ne p (l : list string) : forall c,
  p ∉ l -> fileRegistry (afterRemoved l c) !! p = fileRegistry c !! p.
Proof.
  induction l as [|q l IH]; intros c Hni; [reflexivity|].
  apply not_elem_of_cons in Hni as [Hne Hni].
  simpl. rewrite IH by exact Hni. simpl. now apply lookup_insert_ne.
Qed.

Section Registry.

Variable path : NodePath.

Lemma doFullBuild_registry svc m :
  fileRegistry (this (fst (doFullBuild path svc m))) = fileRegistry (this m) /\
  rootFilePaths (this (fst (doFullBuild path svc m))) = rootFilePaths (this m).
Proof.
  rewrite doFullBuild_eq. simpl.
  repeat (match goal with |- context [if ?x then _ else _] => destruct x end);
    split; reflexivity.
Qed.

(** The build part of [rebuild] touches neither the registry nor the root
    list. *)
Lemma rebuild_build_registry svc ps m :
  fileRegistry (this (fst (rebuild_build path svc ps m))) = fileRegistry (this m) /\
  rootFilePaths (this (fst (rebuild_build path svc ps m))) = rootFilePaths (this m).
Proof.
  rewrite rebuild_build_eq.
  destruct (firstRun (this m)).
  { match goal with |- context [doFullBuild path svc ?m0] =>
      destruct (doFullBuild_registry svc m0) as [-> ->] end.
    split; reflexivity. }
  simpl.
  destruct (negb _); [split; reflexivity|].
  destruct (previousRunFailed (this m)); [|split; reflexivity].
  match goal with |- context [doFullBuild path svc ?m0] =>
    destruct (doFullBuild_registry svc m0) as [-> ->] end.
  split; reflexivity.
Qed.

(** The registry and the root list at the end of a cycle: the changed
    paths were all applied, the removed ones up to the removal that threw,
    if one did. *)
Lemma rebuild_registry svc d m :
  exists l1 l2, removedPaths d = l1 ++ l2 /\
    fileRegistry (this (fst (rebuild path svc d m)))
      = fileRegistry (afterRemoved l1 (afterChanged (changedPaths d) (this m))) /\
    rootFilePaths (this (fst (rebuild path svc d m)))
      = rootFilePaths (afterRemoved l1 (afterChanged (changedPaths d) (this m))).
Proof.
  rewrite rebuild_eq, applyDiff_eq.
  match goal with |- context [forEach ?f ?l ?m0] =>
    destruct (removed_loop_prefix path l m0) as (l1 & l2 & Hl & Hthis & _);
    destruct (forEach f l m0) as [m1 [u|e]] end; simpl in *;
    exists l1, l2; (split; [exact Hl|]).
  - destruct (rebuild_build_registry svc (changedPaths d) m1) as [-> ->].
    now rewrite Hthis.
  - now rewrite Hthis.
Qed.

Lemma rebuild_lookup svc d m p :
  p ∉ removedPaths d ->
  fileRegistry (this (fst (rebuild path svc d m))) !! p
    = bump (occurrences p (changedPaths d)) (fileRegistry (this m) !! p).
Proof.
  intros Hni. destruct (rebuild_registry svc d m) as (l1 & l2 & Hl & -> & _).
  rewrite afterRemoved_lookup_ne, afterChanged_lookup; [reflexivity|].
  intros Hin. apply Hni. rewrite Hl. apply elem_of_app. now left.
Qed.

Lemma run_lookup p (cycles : list (TsService * TreeDiff)) : forall m,
  (forall svc d, (svc, d) ∈ cycles -> p ∉ removedPaths d) ->
  fileRegistry (this (run path cycles m)) !! p
    = bump (reports p cycles) (fileRegistry (this m) !! p).
Proof.
  unfold reports, occurrences.
  induction cycles as [|[svc d] cycles IH]; intros m Hrm; [reflexivity|].
  simpl. rewrite IH.
  - rewrite rebuild_lookup by (apply (Hrm svc); apply list_elem_of_here).
    rewrite List.filter_app, length_app. unfold occurrences. now rewrite bump_add.
  - intros svc' d' Hin. apply (Hrm svc'). now apply list_elem_of_further.
Qed.

Lemma occurrences_roots_changed p (l : list string) : forall c,
  occurrences p (rootFilePaths (afterChanged l c))
    = occurrences p (rootFilePaths c)
        + (if truthy (fileRegistry c !! p) then 0
           else if occurrences p l =? 0 then 0 else 1).
Proof.
  unfold occurrences.
  induction l as [|q l IH]; intros c; simpl.
  - destruct (truthy _); lia.
  - rewrite IH. case_bool_decide as E.
    + subst q. rewrite markChanged_lookup. simpl.
      unfold markChanged.
      destruct (fileRegistry c !! p) as [[v|]|]; simpl; try lia;
        rewrite List.filter_app, length_app; simpl;
        rewrite bool_decide_eq_true_2 by reflexivity; simpl; lia.
    + rewrite markChanged_lookup_ne by exact E.
      unfold markChanged.
      destruct (fileRegistry c !! q) as [[v|]|]; simpl; try lia;
        rewrite List.filter_app, length_app; simpl;
        rewrite bool_decide_eq_false_2 by exact E; simpl; lia.
Qed.

(** C5.  A path reported changed while its registry entry is undefined
    gets a record with version 0 and is pushed once onto the root list; a
    report of a path that has a record adds one to its version and leaves
    the root list alone.  Hence, over any run of cycles that never remove
    [p], starting with [p] unknown, after [n >= 1] changed-reports of [p]
    the version of [p] is [n - 1], which [getScriptVersion] returns as a
    decimal string; and the reports of one cycle push [p] onto the root
    list exactly once. *)
Theorem version_counts_reports (p : string) :
  (forall c, fileRegistry c !! p = None ->
     fileRegistry (markChanged p c) !! p = Some (FileRecord 0) /\
     rootFilePaths (markChanged p c) = rootFilePaths c ++ [p]) /\
  (forall c v, fileRegistry c !! p = Some (FileRecord v) ->
     fileRegistry (markChanged p c) !! p = Some (FileRecord (S v)) /\
     rootFilePaths (markChanged p c) = rootFilePaths c) /\
  (forall cycles m,
     fileRegistry (this m) !! p = None ->
     (forall svc d, (svc, d) ∈ cycles -> p ∉ removedPaths d) ->
     1 <= reports p cycles ->
     fileRegistry (this (run path cycles m)) !! p
       = Some (FileRecord (reports p cycles - 1)) /\
     getScriptVersion (this (run path cycles m)) p
       = JsString (pretty (reports p cycles - 1))) /\
  (forall l c,
     fileRegistry c !! p = None ->
     1 <= occurrences p l ->
     occurrences p (rootFilePaths (afterChanged l c))
       = occurrences p (rootFilePaths c) + 1).
Proof.
  split; [|split; [|split]].
  - intros c Hc. unfold markChanged. rewrite Hc. simpl.
    split; [apply lookup_insert_eq|reflexivity].
  - intros c v Hc. unfold markChanged. rewrite Hc. simpl.
    split; [apply lookup_insert_eq|reflexivity].
  - intros cycles m Hm Hrm Hn.
    assert (H : fileRegistry (this (run path cycles m)) !! p
                = Some (FileRecord (reports p cycles - 1))).
    { rewrite run_lookup by exact Hrm. rewrite Hm.
      now apply bump_untracked. }
    split; [exact H|]. unfold getScriptVersion. now rewrite H.
  - intros l c Hc Hn. rewrite occurrences_roots_changed, Hc. simpl.
    destruct (occurrences p l =? 0) eqn:E; [apply Nat.eqb_eq in E; lia|reflexivity].
Qed.

(** C10.  A path whose registry entry is the tombstone [null] is treated
    by [rebuild] as a path never seen: a cycle that reports it changed
    stores a fresh record with version 0, whatever the version was before
    the removal, and pushes the path at the end of the root list; the
    registry and the root list end up as they do from a registry without
    the entry. *)
Theorem tombstone_is_first_seen (p : string) svc (m : Machine) :
  fileRegistry (this m) !! p = Some Null ->
  let out := rebuild path svc (mkDiff [p] []) m in
  let unseen :=
    mkMachine
      (mkCompiler (inputPath (this m)) (cachePath (this m))
         (delete p (fileRegistry (this m)))
         (firstRun (this m)) (previousRunFailed (this m)) (rootFilePaths (this m)))
      (disk m) (trace m) in
  fileRegistry (this (fst out)) !! p = Some (FileRecord 0) /\
  rootFilePaths (this (fst out)) = rootFilePaths (this m) ++ [p] /\
  fileRegistry (this (fst out))
    = fileRegistry (this (fst (rebuild path svc (mkDiff [p] []) unseen))) /\
  rootFilePaths (this (fst out))
    = rootFilePaths (this (fst (rebuild path svc (mkDiff [p] []) unseen))).
Proof.
  intros Hp out unseen.
  assert (Hgen : forall m', 
    fileRegistry (this (fst (rebuild path svc (mkDiff [p] []) m')))
      = fileRegistry (markChanged p (this m')) /\
    rootFilePaths (this (fst (rebuild path svc (mkDiff [p] []) m')))
      = rootFilePaths (markChanged p (this m'))).
  { intros m'. destruct (rebuild_registry svc (mkDiff [p] []) m')
      as (l1 & l2 & Hl & -> & ->).
    simpl in Hl. symmetry in Hl. apply app_eq_nil in Hl as [-> _].
    split; reflexivity. }
  unfold out. destruct (Hgen m) as [-> ->]. destruct (Hgen unseen) as [-> ->].
  unfold markChanged. simpl. rewrite Hp, lookup_delete_eq. simpl.
  repeat split.
  - apply lookup_insert_eq.
  - now rewrite insert_delete_eq.
Qed.

End Registry.

(** ** C6: the root list and the registry in lockstep *)

Lemma rootsExact_ext c c' :
  fileRegistry c = fileRegistry c' -> rootFilePaths c = rootFilePaths c' ->
  rootsExact c -> rootsExact c'.
Proof.
  unfold rootsExact, lockstep. intros Hr Hl. now rewrite Hr, Hl.
Qed.

Lemma markChanged_rootsExact p c : rootsExact c -> rootsExact (markChanged p c).
Proof.
  intros [Hnd Hls]. unfold markChanged.
  destruct (fileRegistry c !! p) as [[v|]|] eqn:Hp.
  - split; [exact Hnd|]. intros q. simpl.
    destruct (decide (p = q)) as [<-|Hne].
    + rewrite lookup_insert_eq. simpl. rewrite (Hls p), Hp. reflexivity.
    + rewrite lookup_insert_ne by exact Hne. apply Hls.
  - assert (Hni : p ∉ rootFilePaths c).
    { intros Hin. apply Hls in Hin. rewrite Hp in Hin. discriminate. }
    split; simpl.
    + apply NoDup_app. repeat split; [exact Hnd| |apply NoDup_singleton].
      intros x Hx Hx'. apply list_elem_of_singleton in Hx'. now subst x.
    + intros q. simpl. rewrite elem_of_app, list_elem_of_singleton.
      destruct (decide (p = q)) as [<-|Hne].
      * rewrite lookup_insert_eq. simpl. tauto.
      * rewrite lookup_insert_ne by exact Hne. rewrite (Hls q).
        split; [intros [H|H]; [exact H|congruence] | now left].
  - assert (Hni : p ∉ rootFilePaths c).
    { intros Hin. apply Hls in Hin. rewrite Hp in Hin. discriminate. }
    split; simpl.
    + apply NoDup_app. repeat split; [exact Hnd| |apply NoDup_singleton].
      intros x Hx Hx'. apply list_elem_of_singleton in Hx'. now subst x.
    + intros q. simpl. rewrite elem_of_app, list_elem_of_singleton.
      destruct (decide (p = q)) as [<-|Hne].
      * rewrite lookup_insert_eq. simpl. tauto.
      * rewrite lookup_insert_ne by exact Hne. rewrite (Hls q).
        split; [intros [H|H]; [exact H|congruence] | now left].
Qed.

Lemma markRemoved_rootsExact p c :
  rootsExact c -> truthy (fileRegistry c !! p) = true ->
  rootsExact (markRemoved p c).
Proof.
  intros [Hnd Hls] Hp. unfold markRemoved.
  assert (Hin : p ∈ rootFilePaths c) by now apply Hls.
  split; simpl; rewrite (splice_indexOf_present _ _ Hin).
  - now apply NoDup_removeFirst.
  - intros q. simpl. rewrite elem_of_removeFirst by exact Hnd.
    destruct (decide (p = q)) as [<-|Hne].
    + rewrite lookup_insert_eq. simpl. split; [intros [_ H]; congruence|discriminate].
    + rewrite lookup_insert_ne by exact Hne. rewrite (Hls q).
      split; [tauto | intros H; split; [exact H|congruence]].
Qed.

Lemma afterChanged_rootsExact (l : list string) : forall c,
  rootsExact c -> rootsExact (afterChanged l c).
Proof.
  induction l as [|p l IH]; intros c Hc; [exact Hc|].
  simpl. apply IH. now apply markChanged_rootsExact.
Qed.

Lemma removalsTracked_app (l1 l2 : list string) : forall c,
  removalsTracked (l1 ++ l2) c = true -> removalsTracked l1 c = true.
Proof.
  induction l1 as [|p l1 IH]; intros c H; [reflexivity|].
  simpl in *. apply andb_true_iff in H as [Hp H].
  rewrite Hp. simpl. now apply IH.
Qed.

Lemma afterRemoved_rootsExact (l : list string) : forall c,
  rootsExact c -> removalsTracked l c = true -> rootsExact (afterRemoved l c).
Proof.
  induction l as [|p l IH]; intros c Hc Hl; [exact Hc|].
  simpl in *. apply andb_true_iff in Hl as [Hp Hl].
  apply IH; [now apply markRemoved_rootsExact|exact Hl].
Qed.

Lemma take_prefix_tracked (l : list string) k c :
  removalsTracked l c = true -> removalsTracked (take k l) c = true.
Proof.
  intros H. apply (removalsTracked_app (take k l) (drop k l)).
  now rewrite take_drop.
Qed.

Section Lockstep.

Variable path : NodePath.

Lemma rebuild_rootsExact svc d m :
  rootsExact (this m) -> diffConsistent d (this m) = true ->
  rootsExact (this (fst (rebuild path svc d m))).
Proof.
  intros Hm Hd.
  destruct (rebuild_registry path svc d m) as (l1 & l2 & Hl & Hreg & Hroots).
  eapply rootsExact_ext; [symmetry; exact Hreg|symmetry; exact Hroots|].
  apply afterRemoved_rootsExact; [now apply afterChanged_rootsExact|].
  unfold diffConsistent in Hd. rewrite Hl in Hd.
  now apply removalsTracked_app in Hd.
Qed.

Lemma run_rootsExact (cycles : list (TsService * TreeDiff)) : forall m,
  rootsExact (this m) -> runConsistent path cycles m = true ->
  rootsExact (this (run path cycles m)).
Proof.
  induction cycles as [|[svc d] cycles IH]; intros m Hm Hc; [exact Hm|].
  simpl in *. apply andb_true_iff in Hc as [Hd Hc].
  apply IH; [now apply rebuild_rootsExact|exact Hc].
Qed.

(** C6 (as the code has it).  For a plugin constructed without preset
    root files, over any run of cycles whose diffs report a path removed
    only while it is tracked: at the end of every cycle a path is in the
    root list if and only if its registry entry is a record; and in a
    further cycle with such a diff the same holds after each changed entry
    and after each removed entry is processed. *)
Theorem lockstep_without_preset (inputP cacheP : string)
    (preset : option (list string)) (disk0 : gmap string string)
    (cycles : list (TsService * TreeDiff)) :
  let m0 := mkMachine (new_DiffingTSCompiler inputP cacheP preset) disk0 [] in
  rootFilePaths (this m0) = [] ->
  runConsistent path cycles m0 = true ->
  lockstep (this (run path cycles m0)) /\
  (forall d, diffConsistent d (this (run path cycles m0)) = true ->
     (forall k, lockstep (afterChanged (take k (changedPaths d))
                            (this (run path cycles m0)))) /\
     (forall k, lockstep (afterRemoved (take k (removedPaths d))
                            (afterChanged (changedPaths d)
                               (this (run path cycles m0)))))).
Proof.
  intros m0 Hroots Hrun.
  assert (H0 : rootsExact (this m0)).
  { split.
    - rewrite Hroots. apply NoDup_nil_2.
    - intros p. rewrite Hroots. simpl. rewrite lookup_empty. simpl.
      split; [intros H; now apply elem_of_nil in H|discriminate]. }
  pose proof (run_rootsExact cycles m0 H0 Hrun) as Hend.
  split; [apply Hend|].
  intros d Hd. split; intros k.
  - now apply afterChanged_rootsExact.
  - apply afterRemoved_rootsExact; [now apply afterChanged_rootsExact|].
    now apply take_prefix_tracked.
Qed.

End Lockstep.

Lemma lockstep_without_preset_witness :
  let cycles :=
    [(Ex.clean, mkDiff ["a.ts"; "b.ts"] []); (Ex.clean, mkDiff ["a.ts"] ["b.ts"])] in
  let m0 := mkMachine (new_DiffingTSCompiler "/in" "/cache" None) ∅ [] in
  rootFilePaths (this m0) = [] /\
  runConsistent Posix.path cycles m0 = true /\
  lockstep (this (run Posix.path cycles m0)).
Proof.
  split; [reflexivity|]. split; [reflexivity|].
  apply (lockstep_without_preset Posix.path "/in" "/cache" None ∅
           [(Ex.clean, mkDiff ["a.ts"; "b.ts"] []);
            (Ex.clean, mkDiff ["a.ts"] ["b.ts"])]); reflexivity.
Defined.

(** The statement of the specification fails for a plugin constructed with
    a preset root file: after a clean first cycle over [a.ts] the preset
    file is a root without a registry entry. *)
Lemma lockstepAlways_counterexample :
  ~ lockstepAlways Posix.path (Some ["typings/globals.d.ts"])
      [(Ex.clean, mkDiff ["a.ts"] [])].
Proof.
  intros H. specialize (H eq_refl "typings/globals.d.ts").
  destruct H as [H _].
  assert (Hin : "typings/globals.d.ts" ∈
            rootFilePaths (this (run Posix.path [(Ex.clean, mkDiff ["a.ts"] [])]
              (mkMachine (new_DiffingTSCompiler "/in" "/cache"
                 (Some ["typings/globals.d.ts"])) ∅ [])))).
  { vm_compute. apply list_elem_of_here. }
  specialize (H Hin). vm_compute in H. discriminate.
Qed.

(** ** C7 and C8: removed paths *)

Section RemovedPaths.

Variable path : NodePath.

Lemma forEach_throw_at {A : Type} (f : A -> Js unit) (l1 : list A) x l2 :
  forall m m1 m2 e,
  forEach f l1 m = (m1, Normal tt) ->
  f x m1 = (m2, Throw e) ->
  forEach f (l1 ++ x :: l2) m = (m2, Throw e).
Proof.
  induction l1 as [|y l1 IH]; intros m m1 m2 e H1 H2; simpl in *.
  - unfold mret, Js_ret in H1. injection H1 as <-.
    unfold mbind, Js_bind. now rewrite H2.
  - unfold mbind, Js_bind in *.
    destruct (f y m) as [m' [[]|e']]; [|discriminate].
    now apply (IH m' m1 m2 e).
Qed.

Lemma rebuild_removed_eq p m :
  rebuild_removed path p m =
    removeOutputFor path p
      (mkMachine (markRemoved p (this m)) (disk m)
         (trace m ++ [ConsoleLog ("removing outputs for " +:+ p)])).
Proof. reflexivity. Qed.

(** One removal of [rebuild] ends as [removeOutputFor] does on the cache
    directory it finds. *)
Lemma rebuild_removed_outcome p m :
  snd (rebuild_removed path p m) = snd (removeOutputFor path p m) /\
  disk (fst (rebuild_removed path p m)) = disk (fst (removeOutputFor path p m)).
Proof.
  rewrite rebuild_removed_eq, !removeOutputFor_eq. simpl.
  change (jsPathOf path (markRemoved p (this m)) p) with (jsPathOf path (this m) p).
  change (mapPathOf path (markRemoved p (this m)) p) with (mapPathOf path (this m) p).
  change (dtsPathOf path (markRemoved p (this m)) p) with (dtsPathOf path (this m) p).
  destruct (disk m !! jsPathOf path (this m) p); [|split; reflexivity].
  destruct (delete _ (disk m) !! mapPathOf path (this m) p); [|split; reflexivity].
  destruct (delete _ (delete _ (disk m)) !! dtsPathOf path (this m) p);
    split; reflexivity.
Qed.

(** C7.  For every removed path [rebuild] runs [removeOutputFor], which
    tests the generated [.js] file first.  If it is absent, nothing is
    deleted and nothing is thrown.  If it is present, the [.js], [.js.map]
    and [.d.ts] files are unlinked in that order; when all three are there
    at their turn, all three are gone afterwards; when the source map or
    the declaration is not there at its turn, the unlink throws and
    [rebuild] ends there with that error: the later removals and the whole
    build part are not run.  [m] is the machine on which the removal of
    [p] starts. *)
Theorem stale_output_removal (p : string) (m : Machine) :
  let js := jsPathOf path (this m) p in
  let mp := mapPathOf path (this m) p in
  let dts := dtsPathOf path (this m) p in
  (disk m !! js = None ->
   removeOutputFor path p m = (m, Normal tt) /\
   snd (rebuild_removed path p m) = Normal tt /\
   disk (fst (rebuild_removed path p m)) = disk m) /\
  (is_Some (disk m !! js) ->
   is_Some (delete js (disk m) !! mp) ->
   is_Some (delete mp (delete js (disk m)) !! dts) ->
   snd (removeOutputFor path p m) = Normal tt /\
   newEvents m (fst (removeOutputFor path p m)) = [Unlink js; Unlink mp; Unlink dts] /\
   snd (rebuild_removed path p m) = Normal tt /\
   disk (fst (rebuild_removed path p m))
     = delete dts (delete mp (delete js (disk m))) /\
   disk (fst (rebuild_removed path p m)) !! js = None /\
   disk (fst (rebuild_removed path p m)) !! mp = None /\
   disk (fst (rebuild_removed path p m)) !! dts = None) /\
  (is_Some (disk m !! js) ->
   delete js (disk m) !! mp = None ->
   snd (removeOutputFor path p m) = Throw (ENOENT mp) /\
   snd (rebuild_removed path p m) = Throw (ENOENT mp)) /\
  (is_Some (disk m !! js) ->
   is_Some (delete js (disk m) !! mp) ->
   delete mp (delete js (disk m)) !! dts = None ->
   snd (removeOutputFor path p m) = Throw (ENOENT dts) /\
   snd (rebuild_removed path p m) = Throw (ENOENT dts)) /\
  (forall svc d m0 l1 l2,
     removedPaths d = l1 ++ p :: l2 ->
     forEach (rebuild_removed path) l1
       (mkMachine (afterChanged (changedPaths d) (this m0)) (disk m0) (trace m0))
       = (m, Normal tt) ->
     (is_Some (disk m !! js) ->
      delete js (disk m) !! mp = None ->
      snd (rebuild path svc d m0) = Throw (ENOENT mp) /\
      disk (fst (rebuild path svc d m0)) = delete js (disk m)) /\
     (is_Some (disk m !! js) ->
      is_Some (delete js (disk m) !! mp) ->
      delete mp (delete js (disk m)) !! dts = None ->
      snd (rebuild path svc d m0) = Throw (ENOENT dts) /\
      disk (fst (rebuild path svc d m0)) = delete mp (delete js (disk m)))).
Proof.
  intros js mp dts.
  destruct (rebuild_removed_outcome p m) as [Hsnd Hdisk].
  assert (Habsent : disk m !! js = None ->
            removeOutputFor path p m = (m, Normal tt)).
  { intros Hjs. rewrite removeOutputFor_eq. simpl. fold js. now rewrite Hjs. }
  assert (Hmap : is_Some (disk m !! js) -> delete js (disk m) !! mp = None ->
            snd (removeOutputFor path p m) = Throw (ENOENT mp) /\
            disk (fst (removeOutputFor path p m)) = delete js (disk m)).
  { intros [x Hjs] Hmp. rewrite removeOutputFor_eq. simpl. fold js mp dts.
    now rewrite Hjs, Hmp. }
  assert (Hdts : is_Some (disk m !! js) -> is_Some (delete js (disk m) !! mp) ->
            delete mp (delete js (disk m)) !! dts = None ->
            snd (removeOutputFor path p m) = Throw (ENOENT dts) /\
            disk (fst (removeOutputFor path p m)) = delete mp (delete js (disk m))).
  { intros [x Hjs] [y Hmp] Hd. rewrite removeOutputFor_eq. simpl.
    fold js mp dts. now rewrite Hjs, Hmp, Hd. }
  assert (Hcycle : forall svc d m0 l1 l2 e,
            removedPaths d = l1 ++ p :: l2 ->
            forEach (rebuild_removed path) l1
              (mkMachine (afterChanged (changedPaths d) (this m0)) (disk m0) (trace m0))
              = (m, Normal tt) ->
            snd (removeOutputFor path p m) = Throw e ->
            snd (rebuild path svc d m0) = Throw e /\
            disk (fst (rebuild path svc d m0)) = disk (fst (removeOutputFor path p m))).
  { intros svc d m0 l1 l2 e Hl Hl1 He.
    rewrite <- Hsnd in He. rewrite <- Hdisk.
    rewrite rebuild_eq, applyDiff_eq, Hl.
    destruct (rebuild_removed path p m) as [m2 c] eqn:E. simpl in He. subst c.
    now rewrite (forEach_throw_at _ l1 p l2 _ m m2 e Hl1 E). }
  split; [|split; [|split; [|split]]].
  - intros Hjs. split; [now apply Habsent|].
    rewrite Hsnd, Hdisk, (Habsent Hjs). split; reflexivity.
  - intros [x Hjs] [y Hmp] [z Hd].
    rewrite Hsnd, Hdisk, removeOutputFor_eq. simpl. fold js mp dts.
    rewrite Hjs, Hmp, Hd. simpl.
    split; [reflexivity|]. split.
    { unfold newEvents. simpl. apply drop_app_length. }
    split; [reflexivity|]. split; [reflexivity|]. split; [|split].
    + destruct (decide (dts = js)) as [->|H1]; [apply lookup_delete_eq|].
      rewrite lookup_delete_ne by exact H1.
      destruct (decide (mp = js)) as [->|H2]; [apply lookup_delete_eq|].
      rewrite lookup_delete_ne by exact H2. apply lookup_delete_eq.
    + destruct (decide (dts = mp)) as [->|H1]; [apply lookup_delete_eq|].
      rewrite lookup_delete_ne by exact H1. apply lookup_delete_eq.
    + apply lookup_delete_eq.
  - intros Hjs Hmp. rewrite Hsnd. split; now apply Hmap.
  - intros Hjs Hmp Hd. rewrite Hsnd. split; now apply Hdts.
  - intros svc d m0 l1 l2 Hl Hl1. split.
    + intros Hjs Hmp. destruct (Hmap Hjs Hmp) as [He Hdk].
      destruct (Hcycle svc d m0 l1 l2 _ Hl Hl1 He) as [R1 R2].
      split; [exact R1|]. now rewrite R2.
    + intros Hjs Hmp Hd. destruct (Hdts Hjs Hmp Hd) as [He Hdk].
      destruct (Hcycle svc d m0 l1 l2 _ Hl Hl1 He) as [R1 R2].
      split; [exact R1|]. now rewrite R2.
Qed.

(** C8 (as the code has it).  [rebuild] does not test whether a removed
    path is tracked.  For an untracked path the registry entry becomes the
    tombstone [null]; the removal throws exactly when the removal of the
    stale outputs does, which depends on the cache directory only, not on
    the registry or the root list; and when the
    path has no generated [.js] file the removal completes without error,
    so that a cycle removing only this path goes on to its build part. *)
Theorem untracked_removal_not_detected (p : string) (m : Machine) :
  truthy (fileRegistry (this m) !! p) = false ->
  fileRegistry (this (fst (rebuild_removed path p m))) !! p = Some Null /\
  snd (rebuild_removed path p m) = snd (removeOutputFor path p m) /\
  (forall m', disk m' = disk m -> cachePath (this m') = cachePath (this m) ->
     snd (rebuild_removed path p m') = snd (rebuild_removed path p m)) /\
  (disk m !! jsPathOf path (this m) p = None ->
   snd (rebuild_removed path p m) = Normal tt /\
   snd (applyDiff path (mkDiff [] [p]) m) = Normal []).
Proof.
  intros _. split; [|split; [|split]].
  - rewrite rebuild_removed_this. simpl. apply lookup_insert_eq.
  - rewrite rebuild_removed_eq, !removeOutputFor_eq. simpl.
    unfold jsPathOf, mapPathOf, dtsPathOf. simpl.
    repeat (match goal with |- context [match ?x with _ => _ end] => destruct x end);
      reflexivity.
  - intros m' Hd Hc. rewrite !rebuild_removed_eq, !removeOutputFor_eq. simpl.
    unfold jsPathOf, mapPathOf, dtsPathOf. simpl. rewrite Hd, Hc.
    repeat (match goal with |- context [match ?x with _ => _ end] => destruct x end);
      reflexivity.
  - intros Hjs.
    assert (H : snd (rebuild_removed path p m) = Normal tt).
    { rewrite rebuild_removed_eq, removeOutputFor_eq. simpl.
      unfold jsPathOf in *. simpl. now rewrite Hjs. }
    split; [exact H|].
    rewrite applyDiff_eq. simpl. unfold mbind, Js_bind.
    destruct m as [c dk tr]. simpl in *.
    destruct (rebuild_removed path p _) as [m2 [[]|e]]; [reflexivity|discriminate].
Qed.

End RemovedPaths.

(** ** C9: the first run *)

Section FirstRun.

Variable path : NodePath.

Lemma rebuild_build_firstRun svc ps m :
  firstRun (this (fst (rebuild_build path svc ps m))) = false.
Proof.
  rewrite rebuild_build_eq.
  destruct (firstRun (this m)) eqn:E.
  - now rewrite doFullBuild_firstRun.
  - simpl. destruct (negb _); [exact E|].
    destruct (previousRunFailed (this m)); [|exact E].
    now rewrite doFullBuild_firstRun.
Qed.

Lemma rebuild_keeps_firstRun_false svc d m :
  firstRun (this m) = false ->
  firstRun (this (fst (rebuild path svc d m))) = false.
Proof.
  intros Hfr. destruct (applyDiff_flags path d m) as [H _].
  rewrite rebuild_eq.
  destruct (applyDiff path d m) as [m1 [ps|e]]; simpl in *.
  - apply rebuild_build_firstRun.
  - now rewrite H.
Qed.

Lemma run_keeps_firstRun_false (cycles : list (TsService * TreeDiff)) :
  forall m, firstRun (this m) = false ->
  firstRun (this (run path cycles m)) = false.
Proof.
  induction cycles as [|[svc d] cycles IH]; intros m Hm; [exact Hm|].
  simpl. apply IH. now apply rebuild_keeps_firstRun_false.
Qed.

Lemma takesInitBranch_false d m :
  firstRun (this m) = false -> takesInitBranch path d m = false.
Proof.
  intros Hfr. unfold takesInitBranch.
  destruct (applyDiff_flags path d m) as [H _].
  destruct (applyDiff path d m) as [m1 [ps|e]]; simpl in *; congruence.
Qed.

Lemma initBuilds_after_init (cycles : list (TsService * TreeDiff)) :
  forall m, firstRun (this m) = false -> initBuilds path cycles m = 0.
Proof.
  induction cycles as [|[svc d] cycles IH]; intros m Hm; [reflexivity|].
  simpl. rewrite takesInitBranch_false by exact Hm.
  apply IH. now apply rebuild_keeps_firstRun_false.
Qed.

(** With an empty cache directory no removal of stale outputs throws. *)
Lemma removed_loop_empty_cache (l : list string) : forall m,
  disk m = ∅ ->
  exists m', forEach (rebuild_removed path) l m = (m', Normal tt).
Proof.
  induction l as [|p l IH]; intros m Hm; simpl.
  - exists m. reflexivity.
  - unfold mbind, Js_bind.
    rewrite rebuild_removed_eq, removeOutputFor_eq. simpl.
    rewrite Hm, lookup_empty.
    apply IH. reflexivity.
Qed.

Lemma initBuilds_at_most_once (cycles : list (TsService * TreeDiff)) :
  forall m, initBuilds path cycles m <= 1.
Proof.
  induction cycles as [|[svc' d'] cycles IH]; intros m; simpl; [lia|].
  unfold takesInitBranch. rewrite (rebuild_eq path svc' d' m).
  destruct (applyDiff_flags path d' m) as [Hf _].
  destruct (applyDiff path d' m) as [m1 [ps|e]]; simpl in *.
  - destruct (firstRun (this m1)).
    + rewrite initBuilds_after_init by apply rebuild_build_firstRun. lia.
    + specialize (IH (fst (rebuild_build path svc' ps m1))). lia.
  - specialize (IH m1). lia.
Qed.

(** C9.  The first call of [rebuild] ends with [firstRun] false, whatever
    the full build reports and whether or not the cycle fails.  Its diff
    removes nothing, since a path is reported removed only after it was
    reported changed in an earlier cycle; the same holds for any diff over
    an empty cache directory, and for any call that gets past its
    removals.  Once false, [firstRun] stays false over any run of cycles,
    so that over any run the branch of the first run is taken at most
    once. *)
Theorem firstRun_cleared_once svc d (m : Machine) :
  (removedPaths d = [] ->
     firstRun (this (fst (rebuild path svc d m))) = false /\
     forall cycles, firstRun (this (run path ((svc, d) :: cycles) m)) = false) /\
  (disk m = ∅ ->
     firstRun (this (fst (rebuild path svc d m))) = false) /\
  (forall m1 ps, applyDiff path d m = (m1, Normal ps) ->
     firstRun (this (fst (rebuild path svc d m))) = false) /\
  (firstRun (this m) = false ->
     forall cycles, firstRun (this (run path cycles m)) = false) /\
  (forall cycles, initBuilds path cycles m <= 1).
Proof.
  assert (Hpast : forall m1 ps, applyDiff path d m = (m1, Normal ps) ->
            firstRun (this (fst (rebuild path svc d m))) = false).
  { intros m1 ps Hdiff. rewrite rebuild_eq, Hdiff. apply rebuild_build_firstRun. }
  assert (Hnone : removedPaths d = [] ->
            firstRun (this (fst (rebuild path svc d m))) = false).
  { intros Hrm. rewrite rebuild_eq, applyDiff_eq, Hrm. simpl.
    apply rebuild_build_firstRun. }
  split; [|split; [|split; [|split]]].
  - intros Hrm. split; [now apply Hnone|].
    intros cycles. simpl. apply run_keeps_firstRun_false. now apply Hnone.
  - intros Hdisk.
    destruct (removed_loop_empty_cache (removedPaths d)
                (mkMachine (afterChanged (changedPaths d) (this m)) (disk m) (trace m))
                Hdisk) as [m' Hm'].
    apply (Hpast m' (changedPaths d)). rewrite applyDiff_eq, Hm'. reflexivity.
  - exact Hpast.
  - intros Hfr cycles. now apply run_keeps_firstRun_false.
  - intros cycles. apply initBuilds_at_most_once.
Qed.

End FirstRun.

Lemma firstRun_cleared_once_witness :
  let svc := Ex.broken "a.ts" in
  let d := mkDiff ["a.ts"] [] in
  firstRun (this Ex.fresh) = true /\
  removedPaths d = [] /\
  snd (rebuild Posix.path svc d Ex.fresh) = Throw errorsFound /\
  firstRun (this (fst (rebuild Posix.path svc d Ex.fresh))) = false /\
  firstRun (this (run Posix.path [(svc, d); (Ex.clean, mkDiff ["b.ts"] ["a.ts"])]
                    Ex.fresh)) = false.
Proof.
  split; [reflexivity|]. split; [reflexivity|]. split; [reflexivity|].
  destruct (firstRun_cleared_once Posix.path (Ex.broken "a.ts")
              (mkDiff ["a.ts"] []) Ex.fresh) as (H & _).
  destruct (H eq_refl) as [H1 H2].
  split; [exact H1|]. exact (H2 [(Ex.clean, mkDiff ["b.ts"] ["a.ts"])]).
Defined.

(** ** Examples for the registry and the removal of stale outputs *)

Lemma version_counts_reports_witness :
  let cycles :=
    [(Ex.clean, mkDiff ["a.ts"; "b.ts"] []);
     (Ex.broken "a.ts", mkDiff ["a.ts"] ["b.ts"]);
     (Ex.clean, mkDiff ["a.ts"] [])] in
  fileRegistry (this Ex.fresh) !! "a.ts" = None /\
  1 <= reports "a.ts" cycles /\
  getScriptVersion (this (run Posix.path cycles Ex.fresh)) "a.ts" = JsString "2".
Proof.
  split; [reflexivity|]. split; [vm_compute; lia|].
  destruct (version_counts_reports Posix.path "a.ts") as (_ & _ & H & _).
  refine (proj2 (H [(Ex.clean, mkDiff ["a.ts"; "b.ts"] []);
                    (Ex.broken "a.ts", mkDiff ["a.ts"] ["b.ts"]);
                    (Ex.clean, mkDiff ["a.ts"] [])] Ex.fresh eq_refl _ _)).
  - intros svc d Hin Hrm.
    repeat (apply elem_of_cons in Hin as [Hin|Hin];
            [injection Hin as -> ->; vm_compute in Hrm;
             repeat (apply elem_of_cons in Hrm as [Hrm|Hrm]; [discriminate|]);
             now apply elem_of_nil in Hrm|]).
    now apply elem_of_nil in Hin.
  - vm_compute. lia.
Defined.

Lemma tombstone_is_first_seen_witness :
  let m :=
    run Posix.path
      [(Ex.clean, mkDiff ["a.ts"] []); (Ex.clean, mkDiff ["a.ts"] []);
       (Ex.clean, mkDiff [] ["a.ts"])] Ex.fresh in
  fileRegistry (this m) !! "a.ts" = Some Null /\
  fileRegistry (this (fst (rebuild Posix.path Ex.clean (mkDiff ["a.ts"] []) m))) !! "a.ts"
    = Some (FileRecord 0) /\
  rootFilePaths (this (fst (rebuild Posix.path Ex.clean (mkDiff ["a.ts"] []) m)))
    = rootFilePaths (this m) ++ ["a.ts"].
Proof.
  split; [reflexivity|].
  destruct (tombstone_is_first_seen Posix.path "a.ts" Ex.clean
              (run Posix.path
                 [(Ex.clean, mkDiff ["a.ts"] []); (Ex.clean, mkDiff ["a.ts"] []);
                  (Ex.clean, mkDiff [] ["a.ts"])] Ex.fresh) eq_refl)
    as (H1 & H2 & _).
  split; [exact H1|exact H2].
Defined.

Lemma stale_output_removal_witness :
  let m := mkMachine (this Ex.steady) {[ "/cache/a.js" := "js" ]} [] in
  is_Some (disk m !! jsPathOf Posix.path (this m) "a.ts") /\
  delete (jsPathOf Posix.path (this m) "a.ts") (disk m)
    !! mapPathOf Posix.path (this m) "a.ts" = None /\
  snd (rebuild Posix.path Ex.clean (mkDiff [] ["a.ts"]) m)
    = Throw (ENOENT "/cache/a.js.map") /\
  disk (fst (rebuild Posix.path Ex.clean (mkDiff [] ["a.ts"]) m)) = ∅ /\
  snd (rebuild_removed Posix.path "a.ts" Ex.steady) = Normal tt /\
  disk (fst (rebuild_removed Posix.path "a.ts" Ex.steady)) = ∅ /\
  snd (rebuild_removed Posix.path "b.ts" Ex.steady) = Normal tt /\
  disk (fst (rebuild_removed Posix.path "b.ts" Ex.steady)) = disk Ex.steady.
Proof.
  assert (H1 : is_Some (({[ "/cache/a.js" := "js" ]} : gmap string string)
                          !! jsPathOf Posix.path (this Ex.steady) "a.ts"))
    by (vm_compute; eauto).
  split; [exact H1|]. split; [reflexivity|].
  destruct (stale_output_removal Posix.path "a.ts"
              (mkMachine (this Ex.steady) {[ "/cache/a.js" := "js" ]} []))
    as (_ & _ & _ & _ & Hcycle).
  destruct (Hcycle Ex.clean (mkDiff [] ["a.ts"])
              (mkMachine (this Ex.steady) {[ "/cache/a.js" := "js" ]} [])
              [] [] eq_refl eq_refl) as [Hmap _].
  destruct (Hmap H1 eq_refl) as [R1 R2].
  split; [exact R1|].
  split; [etransitivity; [exact R2|vm_compute; reflexivity]|].
  destruct (stale_output_removal Posix.path "a.ts" Ex.steady) as (_ & Ha & _).
  assert (A1 : is_Some (disk Ex.steady !! jsPathOf Posix.path (this Ex.steady) "a.ts"))
    by (vm_compute; eauto).
  assert (A2 : is_Some (delete (jsPathOf Posix.path (this Ex.steady) "a.ts")
                          (disk Ex.steady)
                          !! mapPathOf Posix.path (this Ex.steady) "a.ts"))
    by (vm_compute; eauto).
  assert (A3 : is_Some (delete (mapPathOf Posix.path (this Ex.steady) "a.ts")
                          (delete (jsPathOf Posix.path (this Ex.steady) "a.ts")
                             (disk Ex.steady))
                          !! dtsPathOf Posix.path (this Ex.steady) "a.ts"))
    by (vm_compute; eauto).
  destruct (Ha A1 A2 A3) as (_ & _ & S1 & S2 & _).
  split; [exact S1|].
  split; [etransitivity; [exact S2|vm_compute; reflexivity]|].
  destruct (stale_output_removal Posix.path "b.ts" Ex.steady) as (Hb & _).
  destruct (Hb eq_refl) as (_ & B1 & B2).
  split; [exact B1|exact B2].
Defined.

Lemma untracked_removal_not_detected_witness :
  truthy (fileRegistry (this Ex.steady) !! "b.ts") = false /\
  fileRegistry (this (fst (rebuild_removed Posix.path "b.ts" Ex.steady))) !! "b.ts"
    = Some Null /\
  snd (rebuild_removed Posix.path "b.ts" Ex.steady) = Normal tt.
Proof.
  split; [reflexivity|].
  destruct (untracked_removal_not_detected Posix.path "b.ts" Ex.steady eq_refl)
    as (H1 & _ & _ & H3).
  split; [exact H1|]. exact (proj1 (H3 eq_refl)).
Defined.

(** The statement of the specification fails on a STEADY plugin asked to
    remove [b.ts], a path it never saw: the cycle returns normally. *)
Lemma untrackedRemovalIsFatal_counterexample :
  ~ untrackedRemovalIsFatal Posix.path Ex.clean "b.ts" Ex.steady.
Proof.
  intros H. destruct (H eq_refl) as [e He]. vm_compute in He. discriminate.
Qed.

(** In that cycle the root list loses [a.ts], its last element, and the
    registry gains a tombstone for [b.ts]. *)
Example untracked_removal_drops_a_root :
  let out := rebuild Posix.path Ex.clean (mkDiff [] ["b.ts"]) Ex.steady in
  snd out = Normal tt /\
  rootFilePaths (this Ex.steady) = ["a.ts"] /\
  rootFilePaths (this (fst out)) = [] /\
  fileRegistry (this (fst out)) !! "a.ts" = Some (FileRecord 0) /\
  fileRegistry (this (fst out)) !! "b.ts" = Some Null.
Proof. vm_compute. repeat split. Qed.

(** * Further properties of the plugin *)

(** ** Helper facts on events and on the cache directory *)



Lemma writeAll_app (l1 l2 : list OutputFile) (d : gmap string string) :
  writeAll (l1 ++ l2) d = writeAll l2 (writeAll l1 d).
Proof. unfold writeAll. apply fold_left_app. Qed.

Lemma writeAll_keeps (l : list OutputFile) : forall (d : gmap string string) k,
  is_Some (d !! k) -> is_Some (writeAll l d !! k).
Proof.
  induction l as [|o l IH]; intros d k Hk; [exact Hk|].
  simpl. apply IH. rewrite lookup_insert_is_Some.
  destruct (decide (name o = k)); [now left | right; split; assumption].
Qed.

Lemma writeAll_frame (l : list OutputFile) : forall (d : gmap string string) k,
  k ∉ map name l -> writeAll l d !! k = d !! k.
Proof.
  induction l as [|o l IH]; intros d k Hk; [reflexivity|].
  simpl in *. apply not_elem_of_cons in Hk as [Hne Hk].
  rewrite IH by exact Hk. now apply lookup_insert_ne.
Qed.

Section CycleFacts.

Variable path : NodePath.

(** The artifact paths depend on the compiler object through [cachePath]
    only. *)
Lemma artifact_paths_cache c c' p :
  cachePath c = cachePath c' ->
  jsPathOf path c p = jsPathOf path c' p /\
  mapPathOf path c p = mapPathOf path c' p /\
  dtsPathOf path c p = dtsPathOf path c' p.
Proof.
  intros H. unfold jsPathOf, mapPathOf, dtsPathOf. now rewrite H.
Qed.

(** One removal, as seen on the trace and on the cache directory. *)
Lemma rebuild_removed_effect p m :
  exists evs,
    trace (fst (rebuild_removed path p m)) = trace m ++ evs /\
    forallb isRemovalEvent evs = true /\
    (forall k, k <> jsPathOf path (this m) p ->
               k <> mapPathOf path (this m) p ->
               k <> dtsPathOf path (this m) p ->
       disk (fst (rebuild_removed path p m)) !! k = disk m !! k) /\
    (forall e, snd (rebuild_removed path p m) = Throw e ->
       e = ENOENT (mapPathOf path (this m) p) \/
       e = ENOENT (dtsPathOf path (this m) p)).
Proof.
  rewrite rebuild_removed_eq, removeOutputFor_eq. simpl.
  change (jsPathOf path (markRemoved p (this m)) p) with (jsPathOf path (this m) p).
  change (mapPathOf path (markRemoved p (this m)) p) with (mapPathOf path (this m) p).
  change (dtsPathOf path (markRemoved p (this m)) p) with (dtsPathOf path (this m) p).
  set (js := jsPathOf path (this m) p).
  set (mp := mapPathOf path (this m) p).
  set (dts := dtsPathOf path (this m) p).
  destruct (disk m !! js) as [x|]; simpl.
  - destruct (delete js (disk m) !! mp) as [y|]; simpl.
    + destruct (delete mp (delete js (disk m)) !! dts) as [z|]; simpl.
      * eexists. split; [rewrite <- app_assoc; reflexivity|].
        split; [reflexivity|]. split; [|discriminate].
        intros k H1 H2 H3. now rewrite !lookup_delete_ne by congruence.
      * eexists. split; [rewrite <- app_assoc; reflexivity|].
        split; [reflexivity|]. split.
        -- intros k H1 H2 H3. now rewrite !lookup_delete_ne by congruence.
        -- intros e He. injection He as <-. now right.
    + eexists. split; [rewrite <- app_assoc; reflexivity|].
      split; [reflexivity|]. split.
      * intros k H1 H2 H3. now rewrite !lookup_delete_ne by congruence.
      * intros e He. injection He as <-. now left.
  - eexists. split; [reflexivity|]. split; [reflexivity|].
    split; [reflexivity|discriminate].
Qed.

Lemma rebuild_removed_cachePath p m :
  cachePath (this (fst (rebuild_removed path p m))) = cachePath (this m).
Proof. now rewrite rebuild_removed_this. Qed.

(** The second loop of [rebuild], as seen on the trace and on the cache
    directory. *)
Lemma removed_loop_effect (l : list string) : forall m,
  exists evs,
    trace (fst (forEach (rebuild_removed path) l m)) = trace m ++ evs /\
    forallb isRemovalEvent evs = true /\
    (forall k,
       (forall p, p ∈ l -> k <> jsPathOf path (this m) p /\
                            k <> mapPathOf path (this m) p /\
                            k <> dtsPathOf path (this m) p) ->
       disk (fst (forEach (rebuild_removed path) l m)) !! k = disk m !! k) /\
    (forall e, snd (forEach (rebuild_removed path) l m) = Throw e ->
       exists p, p ∈ l /\
         (e = ENOENT (mapPathOf path (this m) p) \/
          e = ENOENT (dtsPathOf path (this m) p))).
Proof.
  induction l as [|p l IH]; intros m; simpl.
  - exists []. rewrite app_nil_r. repeat split; try reflexivity. discriminate.
  - unfold mbind, Js_bind.
    destruct (rebuild_removed_effect p m) as (evs1 & Ht1 & He1 & Hd1 & Hx1).
    pose proof (rebuild_removed_cachePath p m) as Hc.
    destruct (rebuild_removed path p m) as [m1 [[]|e1]]; simpl in *.
    + destruct (IH m1) as (evs2 & Ht2 & He2 & Hd2 & Hx2).
      exists (evs1 ++ evs2). split; [rewrite Ht2, Ht1; now rewrite app_assoc|].
      split; [rewrite forallb_app, He1, He2; reflexivity|]. split.
      * intros k Hk. rewrite Hd2.
        -- destruct (Hk p (list_elem_of_here _ _)) as (H1 & H2 & H3). now apply Hd1.
        -- intros q Hq.
           destruct (artifact_paths_cache (this m1) (this m) q Hc) as (-> & -> & ->).
           apply Hk. now apply list_elem_of_further.
      * intros e He. destruct (Hx2 e He) as (q & Hq & Hor).
        exists q. split; [now apply list_elem_of_further|].
        destruct (artifact_paths_cache (this m1) (this m) q Hc) as (_ & <- & <-).
        exact Hor.
    + exists evs1. split; [exact Ht1|]. split; [exact He1|]. split.
      * intros k Hk. destruct (Hk p (list_elem_of_here _ _)) as (H1 & H2 & H3).
        now apply Hd1.
      * intros e He. injection He as <-. exists p.
        split; [apply list_elem_of_here|]. now apply Hx1.
Qed.

(** The first two loops, as seen from the machine [rebuild] was called
    on. *)
Lemma applyDiff_effect d m :
  exists evs,
    trace (fst (applyDiff path d m)) = trace m ++ evs /\
    forallb isRemovalEvent evs = true /\
    (forall k,
       (forall p, p ∈ removedPaths d -> k <> jsPathOf path (this m) p /\
                                          k <> mapPathOf path (this m) p /\
                                          k <> dtsPathOf path (this m) p) ->
       disk (fst (applyDiff path d m)) !! k = disk m !! k) /\
    (forall e, snd (applyDiff path d m) = Throw e ->
       exists p, p ∈ removedPaths d /\
         (e = ENOENT (mapPathOf path (this m) p) \/
          e = ENOENT (dtsPathOf path (this m) p))).
Proof.
  rewrite applyDiff_eq.
  set (m0 := mkMachine (afterChanged (changedPaths d) (this m)) (disk m) (trace m)).
  assert (Hc : cachePath (this m0) = cachePath (this m))
    by apply (afterChanged_flags (changedPaths d) (this m)).
  destruct (removed_loop_effect (removedPaths d) m0) as (evs & Ht & He & Hd & Hx).
  exists evs.
  assert (Hpaths : forall q,
            jsPathOf path (this m0) q = jsPathOf path (this m) q /\
            mapPathOf path (this m0) q = mapPathOf path (this m) q /\
            dtsPathOf path (this m0) q = dtsPathOf path (this m) q)
    by (intros q; now apply artifact_paths_cache).
  destruct (forEach _ _ m0) as [m1 [u|e]]; simpl in *.
  - split; [exact Ht|]. split; [exact He|]. split; [|discriminate].
    intros k Hk. apply Hd. intros q Hq.
    destruct (Hpaths q) as (-> & -> & ->). now apply Hk.
  - split; [exact Ht|]. split; [exact He|]. split.
    + intros k Hk. apply Hd. intros q Hq.
      destruct (Hpaths q) as (-> & -> & ->). now apply Hk.
    + intros e' He'. injection He' as <-.
      destruct (Hx e eq_refl) as (q & Hq & Hor).
      exists q. split; [exact Hq|]. destruct (Hpaths q) as (_ & <- & <-). exact Hor.
Qed.

(** The build part of [rebuild] only writes files, and throws nothing but
    the error of a failed build or a [TypeError]. *)
Lemma rebuild_build_effect svc ps m :
  (exists W, disk (fst (rebuild_build path svc ps m)) = writeAll W (disk m)) /\
  (forall e, snd (rebuild_build path svc ps m) = Throw e ->
     e = errorsFound \/ e = TypeError).
Proof.
  rewrite rebuild_build_eq.
  assert (Hfull : forall m0,
    (exists W, disk (fst (doFullBuild path svc m0)) = writeAll W (disk m0)) /\
    (forall e, snd (doFullBuild path svc m0) = Throw e ->
       e = errorsFound \/ e = TypeError)).
  { intros m0. rewrite doFullBuild_eq. simpl.
    destruct (er_emitSkipped _); [destruct (forallb hasFile _); [destruct (negb _)|]|];
      simpl; (split; [eexists; reflexivity|]); intros e He;
      try discriminate; injection He as <-; auto. }
  destruct (firstRun (this m)).
  { exact (Hfull (mkMachine (set_firstRun false (this m)) (disk m) (trace m))). }
  simpl.
  destruct (negb _); simpl.
  - split; [eexists; reflexivity|]. intros e He. injection He as <-. now left.
  - destruct (previousRunFailed (this m)).
    + match goal with |- context [doFullBuild path svc ?m2] =>
        destruct (Hfull m2) as [[W HW] He] end.
      split; [|exact He]. rewrite HW. simpl.
      eexists. rewrite <- writeAll_app. reflexivity.
    + split; [eexists; reflexivity|discriminate].
Qed.

End CycleFacts.

(** ** What a cycle does, by state *)

Section CycleShapes.

Variable path : NodePath.

(** X1.  In the STEADY state a cycle with an empty diff does nothing at
    all: no request to the language service, no file written or deleted,
    no change to the compiler object, and a normal return. *)
Theorem steady_empty_diff_is_noop svc (m : Machine) :
  firstRun (this m) = false ->
  previousRunFailed (this m) = false ->
  rebuild path svc (mkDiff [] []) m = (m, Normal tt).
Proof.
  intros Hfr Hprf. rewrite rebuild_eq, applyDiff_eq. simpl.
  rewrite rebuild_build_eq. simpl. rewrite Hfr, Hprf. simpl.
  destruct m as [c dk tr]. simpl. now rewrite app_nil_r.
Qed.

(** X2.  The first cycle that gets past its removals requests no per-path
    emit, whatever the diff and whatever [previousRunFailed] is: it runs
    one [program.emit] over the root list as the diff left it. *)
Theorem first_cycle_builds_whole_project svc d (m m1 : Machine) ps :
  firstRun (this m) = true ->
  applyDiff path d m = (m1, Normal ps) ->
  exists post,
    trace (fst (rebuild path svc d m))
      = trace m1 ++ ProgramEmit (rootFilePaths (this m1)) :: post /\
    forallb (fun e => negb (isGetEmitOutput e)) post = true /\
    rootFilePaths (this m1)
      = rootFilePaths (afterRemoved (removedPaths d)
                         (afterChanged (changedPaths d) (this m))).
Proof.
  intros Hfr Hdiff.
  destruct (applyDiff_flags path d m) as [Hfr1 _].
  rewrite Hdiff in Hfr1. simpl in Hfr1. rewrite Hfr in Hfr1.
  rewrite rebuild_eq, Hdiff, rebuild_build_eq, Hfr1.
  destruct (doFullBuild_trace path svc
              (mkMachine (set_firstRun false (this m1)) (disk m1) (trace m1)))
    as (post & Ht & Hpost).
  exists post. split; [exact Ht|]. split; [exact Hpost|].
  rewrite applyDiff_eq in Hdiff.
  destruct (forEach _ _ _) as [m' [u|e]] eqn:E; [|discriminate].
  injection Hdiff as <- _. destruct u.
  now rewrite (removed_loop_normal path _ _ _ _ E).
Qed.



(** X5.  How [previousRunFailed] follows the outcome of a cycle: a cycle
    that throws the error of a failed build leaves it true; a cycle that
    throws anything else (a missing file, a [TypeError]) leaves it as it
    was; a cycle that returns normally never sets it. *)
Theorem flag_follows_outcome svc d (m : Machine) :
  let out := rebuild path svc d m in
  (snd out = Throw errorsFound ->
     previousRunFailed (this (fst out)) = true) /\
  (forall e, snd out = Throw e -> e <> errorsFound ->
     previousRunFailed (this (fst out)) = previousRunFailed (this m)) /\
  (snd out = Normal tt -> previousRunFailed (this m) = false ->
     previousRunFailed (this (fst out)) = false).
Proof.
  intros out. unfold out. clear out.
  destruct (applyDiff_flags path d m) as [_ Hprf1].
  destruct (applyDiff_effect path d m) as (_ & _ & _ & _ & Hx).
  rewrite rebuild_eq.
  destruct (applyDiff path d m) as [m1 [ps|e0]]; simpl in *.
  - rewrite <- Hprf1. rewrite rebuild_build_eq.
    assert (Hfull : forall m0,
      (snd (doFullBuild path svc m0) = Throw errorsFound ->
         previousRunFailed (this (fst (doFullBuild path svc m0))) = true) /\
      (forall e, snd (doFullBuild path svc m0) = Throw e -> e <> errorsFound ->
         previousRunFailed (this (fst (doFullBuild path svc m0)))
           = previousRunFailed (this m0)) /\
      (snd (doFullBuild path svc m0) = Normal tt ->
         previousRunFailed (this m0) = false ->
         previousRunFailed (this (fst (doFullBuild path svc m0))) = false)).
    { intros m0. rewrite doFullBuild_eq. simpl.
      destruct (er_emitSkipped _); [destruct (forallb hasFile _); [destruct (negb _)|]|];
        simpl; repeat split; try discriminate; try reflexivity; try tauto;
        intros e He Hne; injection He as <-; congruence. }
    destruct (firstRun (this m1)).
    { exact (Hfull (mkMachine (set_firstRun false (this m1)) (disk m1) (trace m1))). }
    simpl. destruct (negb _); simpl.
    + repeat split; try discriminate.
      intros e He Hne. injection He as <-. congruence.
    + destruct (previousRunFailed (this m1)) eqn:E.
      * match goal with |- context [doFullBuild path svc ?m2] =>
          destruct (Hfull m2) as (H1 & H2 & H3) end.
        simpl in *. rewrite E in *. repeat split; auto.
      * simpl. repeat split; try discriminate. intros _ _. exact E.
  - repeat split; try discriminate.
    + intros He. injection He as ->.
      destruct (Hx _ eq_refl) as (p & _ & [H|H]); discriminate.
    + intros e He _. exact Hprf1.
Qed.

(** X6.  The failure flag goes from true to false in one case only: the
    cycle ran a full build whose emit was skipped and for which no
    diagnostic at all was reported; the cycle then returns normally. *)
Theorem flag_cleared_only_by_skipped_build svc d (m : Machine) :
  previousRunFailed (this m) = true ->
  previousRunFailed (this (fst (rebuild path svc d m))) = false ->
  snd (rebuild path svc d m) = Normal tt /\
  exists m1 ps,
    applyDiff path d m = (m1, Normal ps) /\
    er_emitSkipped (program_emit svc (rootFilePaths (this m1))) = true /\
    getPreEmitDiagnostics svc (rootFilePaths (this m1))
      ++ diagnostics (program_emit svc (rootFilePaths (this m1))) = [].
Proof.
  intros Hprf.
  destruct (applyDiff_flags path d m) as [_ Hprf1].
  rewrite rebuild_eq.
  destruct (applyDiff path d m) as [m1 [ps|e0]]; simpl in *;
    [|congruence].
  rewrite Hprf in Hprf1.
  assert (Hfull : forall m0,
    rootFilePaths (this m0) = rootFilePaths (this m1) ->
    previousRunFailed (this m0) = true ->
    previousRunFailed (this (fst (doFullBuild path svc m0))) = false ->
    snd (doFullBuild path svc m0) = Normal tt /\
    er_emitSkipped (program_emit svc (rootFilePaths (this m1))) = true /\
    getPreEmitDiagnostics svc (rootFilePaths (this m1))
      ++ diagnostics (program_emit svc (rootFilePaths (this m1))) = []).
  { intros m0 Hroots Hp0. rewrite doFullBuild_eq. simpl. rewrite Hroots.
    destruct (er_emitSkipped _); [destruct (forallb hasFile _);
      [destruct (_ ++ _) as [|x l] eqn:E|]|]; simpl; try congruence.
    intros _. auto. }
  rewrite rebuild_build_eq.
  destruct (firstRun (this m1)).
  { intros H.
    destruct (Hfull (mkMachine (set_firstRun false (this m1)) (disk m1) (trace m1))
                eq_refl Hprf1 H) as (R1 & R2 & R3).
    split; [exact R1|]. exists m1, ps. auto. }
  simpl. destruct (negb _); simpl; [discriminate|].
  rewrite Hprf1. intros H.
  match type of H with context [doFullBuild path svc ?m2] =>
    destruct (Hfull m2 eq_refl Hprf1 H) as (R1 & R2 & R3) end.
  split; [exact R1|]. exists m1, ps. auto.
Qed.

(** X7.  When the removal of stale outputs throws, [rebuild] throws
    that error at once: neither run flag has changed and the cycle has
    requested no per-path emit and no full build and written no file.  In
    the STEADY state the plugin is left STEADY, so that a next cycle with
    an empty diff does nothing: the changed paths of the aborted cycle
    are not emitted until they are reported again. *)
Theorem removal_error_aborts_cycle svc d (m : Machine) e :
  snd (applyDiff path d m) = Throw e ->
  snd (rebuild path svc d m) = Throw e /\
  firstRun (this (fst (rebuild path svc d m))) = firstRun (this m) /\
  previousRunFailed (this (fst (rebuild path svc d m)))
    = previousRunFailed (this m) /\
  forallb isRemovalEvent (newEvents m (fst (rebuild path svc d m))) = true /\
  (firstRun (this m) = false -> previousRunFailed (this m) = false ->
   forall svc',
     rebuild path svc' (mkDiff [] []) (fst (rebuild path svc d m))
       = (fst (rebuild path svc d m), Normal tt)).
Proof.
  destruct (applyDiff_flags path d m) as [Hfr Hprf].
  destruct (applyDiff_effect path d m) as (evs & Ht & Hevs & _ & _).
  rewrite rebuild_eq.
  destruct (applyDiff path d m) as [m1 [ps|e0]]; simpl in *; [discriminate|].
  intros H. injection H as ->.
  split; [reflexivity|]. split; [exact Hfr|]. split; [exact Hprf|]. split.
  - unfold newEvents. now rewrite Ht, drop_app_length.
  - intros H1 H2 svc'.
    rewrite rebuild_eq, applyDiff_eq. simpl.
    rewrite rebuild_build_eq. simpl. rewrite Hfr, H1, Hprf, H2. simpl.
    destruct m1 as [c dk tr]. simpl. now rewrite app_nil_r.
Qed.

End CycleShapes.

(** ** The full build *)

Section FullBuild.

Variable path : NodePath.

(** X8.  When the emit of a full build is skipped and one of the reported
    diagnostics has no file, [doFullBuild] throws a [TypeError] out of its
    loop over the diagnostics: nothing is logged, not even the
    diagnostics that have a file, and [previousRunFailed] is not
    assigned. *)
Theorem full_build_needs_files_on_diagnostics svc (m : Machine) x :
  er_emitSkipped (program_emit svc (rootFilePaths (this m))) = true ->
  x ∈ (getPreEmitDiagnostics svc (rootFilePaths (this m))
         ++ diagnostics (program_emit svc (rootFilePaths (this m)))) ->
  file x = None ->
  snd (doFullBuild path svc m) = Throw TypeError /\
  this (fst (doFullBuild path svc m)) = this m /\
  newEvents m (fst (doFullBuild path svc m))
    = ProgramEmit (rootFilePaths (this m))
        :: flat_map (writeEvents path)
             (written (program_emit svc (rootFilePaths (this m)))).
Proof.
  intros Hskip Hin Hfile. rewrite doFullBuild_eq. simpl. rewrite Hskip.
  assert (Hno : forallb hasFile
            (getPreEmitDiagnostics svc (rootFilePaths (this m))
               ++ diagnostics (program_emit svc (rootFilePaths (this m)))) = false).
  { apply not_true_is_false. intros Hall.
    rewrite forallb_forall in Hall.
    specialize (Hall x (proj1 (list_elem_of_In _ _) Hin)).
    unfold hasFile in Hall. now rewrite Hfile in Hall. }
  rewrite Hno. simpl. repeat split.
  unfold newEvents. simpl. apply drop_app_length.
Qed.


End FullBuild.

(** ** The registry and the root list over a cycle *)

Lemma occurrences_absent p (l : list string) : p ∉ l -> occurrences p l = 0.
Proof.
  unfold occurrences. induction l as [|q l IH]; intros H; [reflexivity|].
  apply not_elem_of_cons in H as [Hne Hl]. simpl.
  rewrite bool_decide_eq_false_2 by congruence. now apply IH.
Qed.

Lemma afterRemoved_lookup_in p (l : list string) : forall c,
  p ∈ l -> fileRegistry (afterRemoved l c) !! p = Some Null.
Proof.
  induction l as [|q l IH]; intros c Hin; [now apply elem_of_nil in Hin|].
  simpl. destruct (decide (p ∈ l)) as [Hl|Hl]; [now apply IH|].
  apply elem_of_cons in Hin as [->|Hin]; [|contradiction].
  rewrite afterRemoved_lookup_ne by exact Hl. simpl. apply lookup_insert_eq.
Qed.

Lemma removeFirst_split p (l : list string) :
  p ∈ l ->
  exists l1 l2, l = l1 ++ p :: l2 /\ (p ∉ l1) /\ removeFirst p l = l1 ++ l2.
Proof.
  induction l as [|q l IH]; intros Hin; [now apply elem_of_nil in Hin|].
  simpl. destruct (decide (q = p)) as [->|Hne].
  - exists [], l. repeat split. apply not_elem_of_nil.
  - apply elem_of_cons in Hin as [->|Hin]; [congruence|].
    destruct (IH Hin) as (l1 & l2 & -> & Hl1 & ->).
    exists (q :: l1), l2. repeat split.
    apply not_elem_of_cons. split; [congruence|exact Hl1].
Qed.

(** The paths the first loop pushes onto the root list. *)
Lemma afterChanged_roots (l : list string) : forall c,
  exists new,
    rootFilePaths (afterChanged l c) = rootFilePaths c ++ new /\
    NoDup new /\
    (forall q, q ∈ new <-> q ∈ l /\ truthy (fileRegistry c !! q) = false).
Proof.
  induction l as [|p l IH]; intros c; simpl.
  - exists []. rewrite app_nil_r. split; [reflexivity|].
    split; [apply NoDup_nil_2|]. intros q. split.
    + intros H. now apply elem_of_nil in H.
    + intros [H _]. now apply elem_of_nil in H.
  - destruct (IH (markChanged p c)) as (new & Hroots & Hnd & Hnew).
    assert (Hp : truthy (fileRegistry (markChanged p c) !! p) = true).
    { rewrite markChanged_lookup. simpl.
      destruct (fileRegistry c !! p) as [[v|]|]; reflexivity. }
    assert (Hother : forall q, q <> p ->
              fileRegistry (markChanged p c) !! q = fileRegistry c !! q)
      by (intros q Hq; apply markChanged_lookup_ne; congruence).
    destruct (truthy (fileRegistry c !! p)) eqn:Hc.
    + exists new. split; [|split; [exact Hnd|]].
      * rewrite Hroots. unfold markChanged.
        destruct (fileRegistry c !! p) as [[v|]|]; try discriminate. reflexivity.
      * intros q. rewrite Hnew, elem_of_cons. split.
        -- intros [Hq Ht]. destruct (decide (q = p)) as [->|Hne]; [congruence|].
           rewrite Hother in Ht by exact Hne. auto.
        -- intros [[->|Hq] Ht]; [congruence|].
           destruct (decide (q = p)) as [->|Hne]; [congruence|].
           rewrite Hother by exact Hne. auto.
    + exists (p :: new). split; [|split].
      * rewrite Hroots. unfold markChanged.
        destruct (fileRegistry c !! p) as [[v|]|]; try discriminate;
          simpl; now rewrite <- app_assoc.
      * apply NoDup_cons. split; [|exact Hnd].
        intros Hin. apply Hnew in Hin as [_ Ht]. congruence.
      * intros q. rewrite !elem_of_cons, Hnew. split.
        -- intros [->|[Hq Ht]]; [auto|].
           destruct (decide (q = p)) as [->|Hne]; [congruence|].
           rewrite Hother in Ht by exact Hne. auto.
        -- intros [[->|Hq] Ht]; [now left|].
           destruct (decide (q = p)) as [->|Hne]; [now left|].
           right. rewrite Hother by exact Hne. auto.
Qed.

Section RegistryOverCycle.

Variable path : NodePath.

(** X10.  A cycle changes the registry entry of no path outside its diff,
    however it ends: a path that is neither changed nor removed keeps its
    entry, and [getScriptVersion] answers for it as before. *)
Theorem cycle_touches_only_diff_paths svc d (m : Machine) q :
  q ∉ changedPaths d ->
  q ∉ removedPaths d ->
  fileRegistry (this (fst (rebuild path svc d m))) !! q = fileRegistry (this m) !! q /\
  getScriptVersion (this (fst (rebuild path svc d m))) q
    = getScriptVersion (this m) q.
Proof.
  intros Hc Hr.
  assert (H : fileRegistry (this (fst (rebuild path svc d m))) !! q
              = fileRegistry (this m) !! q).
  { rewrite rebuild_lookup by exact Hr. now rewrite occurrences_absent. }
  split; [exact H|]. unfold getScriptVersion. now rewrite H.
Qed.

(** X11.  A cycle that reports a tracked path changed [k] times and does
    not remove it raises its version by exactly [k], also when the cycle
    ends with an error: the version bump is not undone by a failed emit
    or a failed build. *)
Theorem tracked_version_rises_by_reports svc d (m : Machine) p v :
  fileRegistry (this m) !! p = Some (FileRecord v) ->
  p ∉ removedPaths d ->
  fileRegistry (this (fst (rebuild path svc d m))) !! p
    = Some (FileRecord (v + occurrences p (changedPaths d))).
Proof.
  intros Hp Hr. rewrite rebuild_lookup by exact Hr.
  rewrite Hp. apply bump_record.
Qed.

(** X12.  A cycle without removed paths only appends to the root list:
    the paths it adds are the changed paths that had no record, each one
    once, whatever the number of times the diff lists it. *)
Theorem roots_only_grow_without_removal svc d (m : Machine) :
  removedPaths d = [] ->
  exists new,
    rootFilePaths (this (fst (rebuild path svc d m)))
      = rootFilePaths (this m) ++ new /\
    NoDup new /\
    (forall q, q ∈ new <->
       q ∈ changedPaths d /\ truthy (fileRegistry (this m) !! q) = false).
Proof.
  intros Hr.
  destruct (rebuild_registry path svc d m) as (l1 & l2 & Hl & _ & Hroots).
  rewrite Hr in Hl. symmetry in Hl. apply app_eq_nil in Hl as [-> _].
  rewrite Hroots. simpl. apply afterChanged_roots.
Qed.

(** X13.  Within one diff removal wins over change: after a cycle whose
    removals complete, a path listed as removed has the tombstone as its
    registry entry, also when the same diff lists it as changed, and
    [getScriptVersion] answers [null] for it. *)
Theorem removal_wins_over_change svc d (m m1 : Machine) ps p :
  applyDiff path d m = (m1, Normal ps) ->
  p ∈ removedPaths d ->
  fileRegistry (this (fst (rebuild path svc d m))) !! p = Some Null /\
  getScriptVersion (this (fst (rebuild path svc d m))) p = JsNull.
Proof.
  intros Hdiff Hp.
  assert (H : fileRegistry (this (fst (rebuild path svc d m))) !! p = Some Null).
  { rewrite rebuild_eq, Hdiff.
    destruct (rebuild_build_registry path svc ps m1) as [-> _].
    rewrite applyDiff_eq in Hdiff.
    destruct (forEach _ _ _) as [m' [u|e]] eqn:E; [|discriminate].
    injection Hdiff as <- _.
    rewrite (removed_loop_normal path _ _ _ _ E). simpl.
    now apply afterRemoved_lookup_in. }
  split; [exact H|]. unfold getScriptVersion. now rewrite H.
Qed.

(** X14.  What a cycle that removes the single path [p] does to the root
    list, however it ends.  If [p] is a root, its first occurrence is cut
    out and the order of the other roots is kept.  If [p] is not a root,
    [indexOf] answers -1 and [splice(-1, 1)] cuts the last root out,
    whichever path that is; an empty root list stays empty. *)
Theorem removal_splices_root_list svc (m : Machine) p :
  let roots := rootFilePaths (this m) in
  let roots' := rootFilePaths (this (fst (rebuild path svc (mkDiff [] [p]) m))) in
  (p ∈ roots ->
     exists l1 l2, roots = l1 ++ p :: l2 /\ (p ∉ l1) /\ roots' = l1 ++ l2) /\
  (p ∉ roots -> roots' = removelast roots).
Proof.
  intros roots roots'.
  assert (H : roots' = splice1 roots (indexOf roots p)).
  { unfold roots', roots. rewrite rebuild_eq, applyDiff_eq. simpl.
    unfold mbind, Js_bind.
    pose proof (rebuild_removed_this path p
      (mkMachine (this m) (disk m) (trace m))) as Hthis.
    destruct (rebuild_removed path p _) as [m1 [[]|e]]; simpl in *.
    - destruct (rebuild_build_registry path svc [] m1) as [_ ->].
      now rewrite Hthis.
    - now rewrite Hthis. }
  split; intros Hp; rewrite H.
  - rewrite splice_indexOf_present by exact Hp. now apply removeFirst_split.
  - now apply splice_indexOf_absent.
Qed.

(** X15.  A cycle deletes no file of the cache directory other than the
    [.js], [.js.map] and [.d.ts] files of its removed paths: any other
    file that was there before the cycle is there after it, however the
    cycle ends. *)
Theorem other_cache_files_survive svc d (m : Machine) k :
  (forall p, p ∈ removedPaths d ->
     k <> jsPathOf path (this m) p /\
     k <> mapPathOf path (this m) p /\
     k <> dtsPathOf path (this m) p) ->
  is_Some (disk m !! k) ->
  is_Some (disk (fst (rebuild path svc d m)) !! k).
Proof.
  intros Hk Hsome.
  destruct (applyDiff_effect path d m) as (_ & _ & _ & Hd & _).
  specialize (Hd k Hk). rewrite rebuild_eq.
  destruct (applyDiff path d m) as [m1 [ps|e]]; simpl in *.
  - destruct (rebuild_build_effect path svc ps m1) as [[W ->] _].
    apply writeAll_keeps. now rewrite Hd.
  - now rewrite Hd.
Qed.

(** X16.  Over any run of a newly constructed plugin, as long as
    [firstRun] is still true [previousRunFailed] is false: the failure
    flag is only ever set by a cycle that has left the first run. *)
Theorem failure_flag_waits_for_first_run (inputP cacheP : string)
    (preset : option (list string)) (disk0 : gmap string string)
    (cycles : list (TsService * TreeDiff)) :
  let m := run path cycles
             (mkMachine (new_DiffingTSCompiler inputP cacheP preset) disk0 []) in
  firstRun (this m) = true -> previousRunFailed (this m) = false.
Proof.
  assert (Hstep : forall svc d m0,
    (firstRun (this m0) = true -> previousRunFailed (this m0) = false) ->
    firstRun (this (fst (rebuild path svc d m0))) = true ->
    previousRunFailed (this (fst (rebuild path svc d m0))) = false).
  { intros svc d m0 Hinv.
    destruct (applyDiff_flags path d m0) as [Hfr Hprf].
    rewrite rebuild_eq.
    destruct (applyDiff path d m0) as [m1 [ps|e]]; simpl in *.
    - rewrite rebuild_build_firstRun. discriminate.
    - rewrite Hfr, Hprf. exact Hinv. }
  assert (Hrun : forall cs m0,
    (firstRun (this m0) = true -> previousRunFailed (this m0) = false) ->
    firstRun (this (run path cs m0)) = true ->
    previousRunFailed (this (run path cs m0)) = false).
  { induction cs as [|[svc d] cs IH]; intros m0 Hinv; [exact Hinv|].
    simpl. apply IH. now apply Hstep. }
  intros m. apply Hrun. reflexivity.
Qed.

End RegistryOverCycle.

(** ** The artifact paths of a removed source path *)

Lemma list_ascii_of_string_app (s1 s2 : string) :
  list_ascii_of_string (s1 +:+ s2)
    = list_ascii_of_string s1 ++ list_ascii_of_string s2.
Proof. induction s1 as [|c s1 IH]; simpl; [reflexivity|now rewrite IH]. Qed.

Lemma string_of_list_ascii_app (l1 l2 : list ascii) :
  string_of_list_ascii (l1 ++ l2)
    = string_of_list_ascii l1 +:+ string_of_list_ascii l2.
Proof. induction l1 as [|c l1 IH]; simpl; [reflexivity|now rewrite IH]. Qed.

Lemma rev_suffix (stem : string) (suffix : list ascii) :
  rev (list_ascii_of_string (stem +:+ string_of_list_ascii suffix))
    = rev suffix ++ rev (list_ascii_of_string stem).
Proof.
  rewrite list_ascii_of_string_app, list_ascii_of_string_of_list_ascii.
  apply rev_app_distr.
Qed.

Lemma stem_of_rev (s : string) (suffix r : list ascii) :
  rev (list_ascii_of_string s) = rev suffix ++ r ->
  s = string_of_list_ascii (rev r) +:+ string_of_list_ascii suffix.
Proof.
  intros H.
  rewrite <- string_of_list_ascii_app, <- (rev_involutive suffix), <- rev_app_distr, <- H.
  now rewrite rev_involutive, string_of_list_ascii_of_string.
Qed.

Lemma stem_roundtrip (stem : string) :
  string_of_list_ascii (rev (rev (list_ascii_of_string stem))) = stem.
Proof. now rewrite rev_involutive, string_of_list_ascii_of_string. Qed.

Section ArtifactPaths.

Variable path : NodePath.

(** X17.  For a source path [stem.ts] the three artifacts are [stem.js],
    [stem.js.map] and [stem.d.ts] under the cache path: only the final
    [.ts] is replaced, so [a.ts/b.ts] keeps its directory and a
    declaration file [x.d.ts] maps to [x.d.js], [x.d.js.map] and
    [x.d.d.ts]. *)
Theorem artifacts_of_ts_path (c : DiffingTSCompiler) (stem : string) :
  jsPathOf path c (stem +:+ ".ts") = join path (cachePath c) (stem +:+ ".js") /\
  mapPathOf path c (stem +:+ ".ts") = join path (cachePath c) (stem +:+ ".js.map") /\
  dtsPathOf path c (stem +:+ ".ts") = join path (cachePath c) (stem +:+ ".d.ts").
Proof.
  unfold jsPathOf, mapPathOf, dtsPathOf, replace_dot_ts, replace_any_ts.
  change ".ts" with (string_of_list_ascii ["."%char; "t"%char; "s"%char]).
  rewrite rev_suffix. simpl. now rewrite stem_roundtrip.
Qed.

(** X18.  The pattern of the source-map path is [/.ts$/], with the dot not
    escaped: for a path that ends in [ts] after a character other than a
    dot or a line terminator, the [.js] and [.d.ts] paths are the source
    path itself, unchanged, while the source-map path drops the last
    three characters. *)
Theorem map_path_matches_any_character (c : DiffingTSCompiler)
    (stem : string) (x : ascii) :
  x <> "."%char ->
  lineTerminator x = false ->
  let p := stem +:+ String x "ts" in
  jsPathOf path c p = join path (cachePath c) p /\
  dtsPathOf path c p = join path (cachePath c) p /\
  mapPathOf path c p = join path (cachePath c) (stem +:+ ".js.map").
Proof.
  intros Hx Hlt p. unfold p.
  unfold jsPathOf, mapPathOf, dtsPathOf, replace_dot_ts, replace_any_ts.
  change (String x "ts") with (string_of_list_ascii [x; "t"%char; "s"%char]).
  rewrite rev_suffix. simpl. rewrite Hlt, stem_roundtrip.
  destruct (decide (x = "."%char)) as [->|Hne]; [congruence|].
  repeat split;
    destruct x as [[] [] [] [] [] [] [] []]; try reflexivity; congruence.
Qed.

Lemma replace_without_ts (p repl : string) :
  (forall stem, p <> stem +:+ "ts") ->
  replace_dot_ts p repl = p /\ replace_any_ts p repl = p.
Proof.
  intros Hp.
  assert (Hrev : forall r, rev (list_ascii_of_string p)
                   <> "s"%char :: "t"%char :: r).
  { intros r H. apply (Hp (string_of_list_ascii (rev r))).
    now apply (stem_of_rev p ["t"%char; "s"%char] r). }
  unfold replace_dot_ts, replace_any_ts.
  destruct (rev (list_ascii_of_string p)) as [|a [|b l]];
    [split; reflexivity| |].
  { split; destruct a as [[] [] [] [] [] [] [] []]; reflexivity. }
  assert (Hab : ~ (a = "s"%char /\ b = "t"%char)).
  { intros [-> ->]. now apply (Hrev l). }
  destruct (decide (a = "s"%char)) as [->|Ha].
  - destruct (decide (b = "t"%char)) as [->|Hb]; [exfalso; apply Hab; auto|].
    split; destruct b as [[] [] [] [] [] [] [] []]; try reflexivity; congruence.
  - split; destruct a as [[] [] [] [] [] [] [] []]; try reflexivity; congruence.
Qed.

(** X19.  For a removed path that does not end in [ts] the three artifact
    paths are one and the same file, the path itself under the cache path.
    If that file exists, [removeOutputFor] deletes it and then throws on
    its second unlink, for the very file it has just deleted. *)
Theorem removal_of_non_ts_path (m : Machine) (p : string) :
  (forall stem, p <> stem +:+ "ts") ->
  let k := join path (cachePath (this m)) p in
  jsPathOf path (this m) p = k /\
  mapPathOf path (this m) p = k /\
  dtsPathOf path (this m) p = k /\
  (is_Some (disk m !! k) ->
   snd (removeOutputFor path p m) = Throw (ENOENT k) /\
   disk (fst (removeOutputFor path p m)) = delete k (disk m)).
Proof.
  intros Hp k.
  assert (Hjs : jsPathOf path (this m) p = k)
    by (unfold jsPathOf; now rewrite (proj1 (replace_without_ts p ".js" Hp))).
  assert (Hmp : mapPathOf path (this m) p = k)
    by (unfold mapPathOf; now rewrite (proj2 (replace_without_ts p ".js.map" Hp))).
  assert (Hdts : dtsPathOf path (this m) p = k)
    by (unfold dtsPathOf; now rewrite (proj1 (replace_without_ts p ".d.ts" Hp))).
  repeat split; try assumption;
    destruct H as [x Hx];
    rewrite removeOutputFor_eq; simpl; rewrite Hjs, Hmp, Hx, lookup_delete_eq;
    reflexivity.
Qed.

End ArtifactPaths.

(** ** The options object and the service host *)

Lemma slashes_no_backslash (s : string) :
  backslash ∉ list_ascii_of_string (slashes s).
Proof.
  induction s as [|c s IH]; simpl; [apply not_elem_of_nil|].
  apply not_elem_of_cons. split; [|exact IH].
  destruct (decide (c = backslash)); [discriminate|congruence].
Qed.

Lemma slashes_fixed (s : string) :
  backslash ∉ list_ascii_of_string s -> slashes s = s.
Proof.
  induction s as [|c s IH]; simpl; intros H; [reflexivity|].
  apply not_elem_of_cons in H as [Hc Hs].
  rewrite decide_False by congruence. now rewrite IH.
Qed.

Section HostFacts.

Variable path : NodePath.

Lemma getScriptSnapshot_eq h p m :
  getScriptSnapshot path h p m =
    (m, Normal (disk m !! (if decide (p = defaultLibFilePath h) then p
                           else join path (treeInputPath h) p))).
Proof.
  unfold getScriptSnapshot.
  set (k := if decide (p = defaultLibFilePath h) then p
            else join path (treeInputPath h) p).
  unfold mbind, Js_bind, existsSync, readFileSync, mret, Js_ret. simpl.
  case_bool_decide as E; simpl.
  - destruct E as [x Hx]. now rewrite Hx.
  - destruct (disk m !! k) eqn:Hk; [|reflexivity].
    exfalso. apply E. eauto.
Qed.

(** X20.  [getScriptSnapshot] changes nothing.  When [fs.existsSync]
    answers false for the path it looks up, it returns [undefined] and
    does not throw; when a regular file is there, the snapshot holds its
    content.  The default library path is looked up as it is, every other
    path under the input path of the tree. *)
Theorem getScriptSnapshot_reads_the_tree (h : CustomLanguageServiceHost)
    (p : string) (m : Machine) :
  let resolved :=
    if decide (p = defaultLibFilePath h) then p
    else join path (treeInputPath h) p in
  fst (getScriptSnapshot path h p m) = m /\
  (snd (existsSync resolved m) = Normal false ->
   snd (getScriptSnapshot path h p m) = Normal None) /\
  (forall content, disk m !! resolved = Some content ->
   snd (getScriptSnapshot path h p m) = Normal (Some content)).
Proof.
  intros resolved. rewrite !getScriptSnapshot_eq. fold resolved. simpl.
  split; [reflexivity|]. split.
  - unfold existsSync. simpl. intros H. injection H as H.
    apply bool_decide_eq_false in H.
    destruct (disk m !! resolved) eqn:E; [|reflexivity].
    exfalso. apply H. eauto.
  - intros content ->. reflexivity.
Qed.

(** X21.  The host stores the default library path with every backslash
    turned into a slash: the stored path has the length of the original
    and no backslash, and is the original when that has none.  A path
    requested with a backslash in it is therefore never taken for the
    default library: it is looked up under the input path of the tree. *)
Theorem default_lib_path_is_normalised (treeIn cwd lib : string) :
  let h := new_CustomLanguageServiceHost treeIn cwd lib in
  (backslash ∉ list_ascii_of_string (defaultLibFilePath h)) /\
  String.length (defaultLibFilePath h) = String.length lib /\
  (backslash ∉ list_ascii_of_string lib -> defaultLibFilePath h = lib) /\
  slashes (defaultLibFilePath h) = defaultLibFilePath h /\
  (forall p m, backslash ∈ list_ascii_of_string p ->
     snd (getScriptSnapshot path h p m) = Normal (disk m !! join path treeIn p)).
Proof.
  intros h. simpl.
  split; [apply slashes_no_backslash|]. split; [|split; [|split]].
  - induction lib as [|c s IH]; simpl; [reflexivity|now rewrite IH].
  - apply slashes_fixed.
  - apply slashes_fixed, slashes_no_backslash.
  - intros p m Hp. rewrite getScriptSnapshot_eq. simpl.
    rewrite decide_False; [reflexivity|].
    intros ->. now apply (slashes_no_backslash lib).
Qed.

(** X22.  The constructor takes the preset root files out of the array of
    the options object ([splice(0)] empties it).  A second plugin
    constructed from the same options object therefore starts without
    preset roots, and over any run of consistent diffs its root list and
    its registry stay in lockstep. *)
Theorem constructor_empties_the_options (i1 c1 i2 c2 : string)
    (preset : list string) (disk0 : gmap string string)
    (cycles : list (TsService * TreeDiff)) :
  let first := construct i1 c1 (Some preset) in
  let second := construct i2 c2 (snd first) in
  rootFilePaths (fst first) = preset /\
  snd first = Some [] /\
  rootFilePaths (fst second) = [] /\
  (runConsistent path cycles (mkMachine (fst second) disk0 []) = true ->
   lockstep (this (run path cycles (mkMachine (fst second) disk0 [])))).
Proof.
  intros first second.
  split; [reflexivity|]. split; [reflexivity|]. split; [reflexivity|].
  intros Hc.
  apply (run_rootsExact path cycles (mkMachine (fst second) disk0 [])); [|exact Hc].
  split; [apply NoDup_nil_2|]. intros q. simpl. rewrite lookup_empty. simpl.
  split; [intros Hq; now apply elem_of_nil in Hq|discriminate].
Qed.

End HostFacts.

(** ** Examples for the further properties *)

Ltac not_in_list :=
  let H := fresh in
  intros H;
  repeat (apply elem_of_cons in H as [H|H]; [discriminate|]);
  now apply elem_of_nil in H.

Lemma steady_empty_diff_is_noop_witness :
  firstRun (this Ex.steady) = false /\
  previousRunFailed (this Ex.steady) = false /\
  rebuild Posix.path Ex.clean (mkDiff [] []) Ex.steady = (Ex.steady, Normal tt).
Proof.
  split; [reflexivity|]. split; [reflexivity|].
  apply (steady_empty_diff_is_noop Posix.path Ex.clean Ex.steady); reflexivity.
Defined.

Lemma first_cycle_builds_whole_project_witness :
  firstRun (this Ex.fresh) = true /\
  exists post,
    trace (fst (rebuild Posix.path Ex.clean (mkDiff ["a.ts"; "b.ts"] []) Ex.fresh))
      = [] ++ ProgramEmit ["a.ts"; "b.ts"] :: post /\
    forallb (fun e => negb (isGetEmitOutput e)) post = true.
Proof.
  split; [reflexivity|].
  destruct (first_cycle_builds_whole_project Posix.path Ex.clean
              (mkDiff ["a.ts"; "b.ts"] []) Ex.fresh
              (fst (applyDiff Posix.path (mkDiff ["a.ts"; "b.ts"] []) Ex.fresh))
              ["a.ts"; "b.ts"] eq_refl eq_refl) as (post & H1 & H2 & _).
  exists post. split; [exact H1|exact H2].
Defined.



Lemma flag_follows_outcome_witness :
  let out := rebuild Posix.path Ex2.globalError (mkDiff [] []) Ex.degraded in
  snd out = Throw TypeError /\
  TypeError <> errorsFound /\
  previousRunFailed (this (fst out)) = previousRunFailed (this Ex.degraded).
Proof.
  split; [reflexivity|]. split; [discriminate|].
  destruct (flag_follows_outcome Posix.path Ex2.globalError (mkDiff [] [])
              Ex.degraded) as (_ & H & _).
  apply (H TypeError); [reflexivity|discriminate].
Defined.

Lemma flag_cleared_only_by_skipped_build_witness :
  let out := rebuild Posix.path Ex2.skippedQuiet (mkDiff [] []) Ex.degraded in
  previousRunFailed (this Ex.degraded) = true /\
  previousRunFailed (this (fst out)) = false /\
  snd out = Normal tt.
Proof.
  split; [reflexivity|]. split; [reflexivity|].
  apply (flag_cleared_only_by_skipped_build Posix.path Ex2.skippedQuiet
           (mkDiff [] []) Ex.degraded); reflexivity.
Defined.

Lemma removal_error_aborts_cycle_witness :
  let m := mkMachine (this Ex.steady) {[ "/cache/a.js" := "js" ]} [] in
  let d := mkDiff ["b.ts"] ["a.ts"] in
  snd (applyDiff Posix.path d m) = Throw (ENOENT "/cache/a.js.map") /\
  firstRun (this m) = false /\
  previousRunFailed (this m) = false /\
  snd (rebuild Posix.path Ex.clean d m) = Throw (ENOENT "/cache/a.js.map") /\
  rebuild Posix.path Ex.clean (mkDiff [] []) (fst (rebuild Posix.path Ex.clean d m))
    = (fst (rebuild Posix.path Ex.clean d m), Normal tt).
Proof.
  assert (H0 : snd (applyDiff Posix.path (mkDiff ["b.ts"] ["a.ts"])
                      (mkMachine (this Ex.steady) {[ "/cache/a.js" := "js" ]} []))
               = Throw (ENOENT "/cache/a.js.map")) by (vm_compute; reflexivity).
  split; [exact H0|]. split; [reflexivity|]. split; [reflexivity|].
  destruct (removal_error_aborts_cycle Posix.path Ex.clean
              (mkDiff ["b.ts"] ["a.ts"])
              (mkMachine (this Ex.steady) {[ "/cache/a.js" := "js" ]} [])
              (ENOENT "/cache/a.js.map") H0) as (H1 & _ & _ & _ & H2).
  split; [exact H1|]. exact (H2 eq_refl eq_refl Ex.clean).
Defined.

Lemma full_build_needs_files_on_diagnostics_witness :
  let x := mkDiagnostic None 0 0 "Unknown compiler option." in
  er_emitSkipped (program_emit Ex2.globalError ["a.ts"]) = true /\
  file x = None /\
  snd (doFullBuild Posix.path Ex2.globalError Ex.steady) = Throw TypeError.
Proof.
  split; [reflexivity|]. split; [reflexivity|].
  apply (full_build_needs_files_on_diagnostics Posix.path Ex2.globalError
           Ex.steady (mkDiagnostic None 0 0 "Unknown compiler option."));
    [reflexivity|apply list_elem_of_here|reflexivity].
Defined.

Lemma cycle_touches_only_diff_paths_witness :
  let out := rebuild Posix.path (Ex.broken "b.ts") (mkDiff ["b.ts"] []) Ex.steady in
  snd out = Throw errorsFound /\
  fileRegistry (this (fst out)) !! "a.ts" = fileRegistry (this Ex.steady) !! "a.ts".
Proof.
  split; [reflexivity|].
  apply (cycle_touches_only_diff_paths Posix.path (Ex.broken "b.ts")
           (mkDiff ["b.ts"] []) Ex.steady "a.ts"); simpl; not_in_list.
Defined.

Lemma tracked_version_rises_by_reports_witness :
  let out :=
    rebuild Posix.path (Ex.broken "a.ts") (mkDiff ["a.ts"; "b.ts"; "a.ts"] [])
      Ex.steady in
  fileRegistry (this Ex.steady) !! "a.ts" = Some (FileRecord 0) /\
  snd out = Throw errorsFound /\
  fileRegistry (this (fst out)) !! "a.ts" = Some (FileRecord 2).
Proof.
  split; [reflexivity|]. split; [reflexivity|].
  apply (tracked_version_rises_by_reports Posix.path (Ex.broken "a.ts")
           (mkDiff ["a.ts"; "b.ts"; "a.ts"] []) Ex.steady "a.ts" 0);
    [reflexivity|simpl; not_in_list].
Defined.

Lemma roots_only_grow_without_removal_witness :
  let d := mkDiff ["b.ts"; "a.ts"; "b.ts"] [] in
  removedPaths d = [] /\
  exists new,
    rootFilePaths (this (fst (rebuild Posix.path Ex.clean d Ex.steady)))
      = ["a.ts"] ++ new /\
    NoDup new.
Proof.
  split; [reflexivity|].
  destruct (roots_only_grow_without_removal Posix.path Ex.clean
              (mkDiff ["b.ts"; "a.ts"; "b.ts"] []) Ex.steady eq_refl)
    as (new & H1 & H2 & _).
  exists new. split; [exact H1|exact H2].
Defined.

Lemma removal_wins_over_change_witness :
  let d := mkDiff ["b.ts"] ["b.ts"] in
  "b.ts" ∈ removedPaths d /\
  getScriptVersion (this (fst (rebuild Posix.path Ex.clean d Ex2.two))) "b.ts"
    = JsNull.
Proof.
  split; [apply list_elem_of_here|].
  apply (removal_wins_over_change Posix.path Ex.clean (mkDiff ["b.ts"] ["b.ts"])
           Ex2.two (fst (applyDiff Posix.path (mkDiff ["b.ts"] ["b.ts"]) Ex2.two))
           ["b.ts"] "b.ts" eq_refl (list_elem_of_here _ _)).
Defined.

Lemma removal_splices_root_list_witness :
  ("c.ts" ∉ rootFilePaths (this Ex2.two)) /\
  rootFilePaths (this (fst (rebuild Posix.path Ex.clean (mkDiff [] ["c.ts"]) Ex2.two)))
    = removelast (rootFilePaths (this Ex2.two)).
Proof.
  assert (H : "c.ts" ∉ rootFilePaths (this Ex2.two)) by (simpl; not_in_list).
  split; [exact H|].
  apply (removal_splices_root_list Posix.path Ex.clean Ex2.two "c.ts"). exact H.
Defined.

Lemma other_cache_files_survive_witness :
  let d := mkDiff ["a.ts"] ["b.ts"] in
  is_Some (disk Ex2.two !! "/cache/a.d.ts") /\
  is_Some (disk (fst (rebuild Posix.path (Ex.broken "a.ts") d Ex2.two))
             !! "/cache/a.d.ts").
Proof.
  assert (H : is_Some (disk Ex2.two !! "/cache/a.d.ts")) by (vm_compute; eauto).
  split; [exact H|].
  apply (other_cache_files_survive Posix.path (Ex.broken "a.ts")
           (mkDiff ["a.ts"] ["b.ts"]) Ex2.two "/cache/a.d.ts"); [|exact H].
  intros p Hp. apply list_elem_of_singleton in Hp as ->.
  vm_compute. repeat split; discriminate.
Defined.

Lemma failure_flag_waits_for_first_run_witness :
  let m :=
    run Posix.path [(Ex.clean, mkDiff ["a.ts"] ["a.ts"])]
      (mkMachine (new_DiffingTSCompiler "/in" "/cache" None)
         {[ "/cache/a.js" := "js" ]} []) in
  firstRun (this m) = true /\ previousRunFailed (this m) = false.
Proof.
  split; [reflexivity|].
  apply (failure_flag_waits_for_first_run Posix.path "/in" "/cache" None
           {[ "/cache/a.js" := "js" ]} [(Ex.clean, mkDiff ["a.ts"] ["a.ts"])]).
  reflexivity.
Defined.

Lemma map_path_matches_any_character_witness :
  "r"%char <> "."%char /\
  lineTerminator "r"%char = false /\
  jsPathOf Posix.path (this Ex.steady) "charts" = "/cache/charts" /\
  mapPathOf Posix.path (this Ex.steady) "charts" = "/cache/cha.js.map".
Proof.
  split; [discriminate|]. split; [reflexivity|].
  destruct (map_path_matches_any_character Posix.path (this Ex.steady) "cha"
              "r"%char) as (H1 & _ & H3); [discriminate|reflexivity|].
  split; [exact H1|exact H3].
Defined.

Lemma removal_of_non_ts_path_witness :
  let m := mkMachine (this Ex.steady) {[ "/cache/README" := "text" ]} [] in
  is_Some (disk m !! "/cache/README") /\
  snd (removeOutputFor Posix.path "README" m) = Throw (ENOENT "/cache/README") /\
  disk (fst (removeOutputFor Posix.path "README" m)) = delete "/cache/README" (disk m).
Proof.
  assert (H : is_Some (({[ "/cache/README" := "text" ]} : gmap string string)
                         !! "/cache/README")) by (vm_compute; eauto).
  split; [exact H|].
  destruct (removal_of_non_ts_path Posix.path
              (mkMachine (this Ex.steady) {[ "/cache/README" := "text" ]} [])
              "README") as (_ & _ & _ & R).
  - intros stem Hs.
    apply (f_equal (fun s => rev (list_ascii_of_string s))) in Hs.
    change "ts" with (string_of_list_ascii ["t"%char; "s"%char]) in Hs.
    rewrite rev_suffix in Hs. simpl in Hs. discriminate.
  - exact (R H).
Defined.

Lemma getScriptSnapshot_reads_the_tree_witness :
  let m := mkMachine (this Ex.steady) {[ "/in/a.ts" := "var a;" ]} [] in
  disk m !! "/in/a.ts" = Some "var a;" /\
  snd (existsSync "/in/b.ts" m) = Normal false /\
  snd (getScriptSnapshot Posix.path Ex2.host "a.ts" m) = Normal (Some "var a;") /\
  snd (getScriptSnapshot Posix.path Ex2.host "b.ts" m) = Normal None.
Proof.
  split; [reflexivity|]. split; [reflexivity|].
  destruct (getScriptSnapshot_reads_the_tree Posix.path Ex2.host "a.ts"
              (mkMachine (this Ex.steady) {[ "/in/a.ts" := "var a;" ]} []))
    as (_ & _ & Ha).
  destruct (getScriptSnapshot_reads_the_tree Posix.path Ex2.host "b.ts"
              (mkMachine (this Ex.steady) {[ "/in/a.ts" := "var a;" ]} []))
    as (_ & Hb & _).
  split; [exact (Ha "var a;" eq_refl)|exact (Hb eq_refl)].
Defined.

Lemma default_lib_path_is_normalised_witness :
  let lib := String "C" (String ":" (String backslash (String "t"
               (String "s" (String backslash "lib.d.ts"))))) in
  defaultLibFilePath (new_CustomLanguageServiceHost "/in" "/work" lib)
    = "C:/ts/lib.d.ts" /\
  backslash ∈ list_ascii_of_string lib /\
  snd (getScriptSnapshot Posix.path
         (new_CustomLanguageServiceHost "/in" "/work" lib) lib Ex.steady)
    = Normal (disk Ex.steady !! Posix.join "/in" lib).
Proof.
  split; [reflexivity|].
  assert (H : backslash ∈ list_ascii_of_string
            (String "C" (String ":" (String backslash (String "t"
               (String "s" (String backslash "lib.d.ts")))))))
    by (simpl; do 2 apply list_elem_of_further; apply list_elem_of_here).
  split; [exact H|].
  destruct (default_lib_path_is_normalised Posix.path "/in" "/work"
              (String "C" (String ":" (String backslash (String "t"
                 (String "s" (String backslash "lib.d.ts")))))))
    as (_ & _ & _ & _ & R).
  exact (R _ Ex.steady H).
Defined.

Lemma constructor_empties_the_options_witness :
  let first := construct "/in" "/cache" (Some ["typings/globals.d.ts"]) in
  let second := construct "/in" "/cache2" (snd first) in
  let cycles := [(Ex.clean, mkDiff ["a.ts"] []); (Ex.clean, mkDiff [] ["a.ts"])] in
  rootFilePaths (fst first) = ["typings/globals.d.ts"] /\
  runConsistent Posix.path cycles (mkMachine (fst second) ∅ []) = true /\
  lockstep (this (run Posix.path cycles (mkMachine (fst second) ∅ []))).
Proof.
  split; [reflexivity|]. split; [reflexivity|].
  destruct (constructor_empties_the_options Posix.path "/in" "/cache" "/in"
              "/cache2" ["typings/globals.d.ts"] ∅
              [(Ex.clean, mkDiff ["a.ts"] []); (Ex.clean, mkDiff [] ["a.ts"])])
    as (_ & _ & _ & R).
  exact (R eq_refl).
Defined.
